(** * Kanzo controller: phase runner and deployment executor

    A shallow embedding of [src/kanzo/core/controller.py].

    - Python exceptions are the constructors of [exc]; a method either
      returns, raises (the mutations done so far persist, as with Python's
      in-place updates) or, for the [while] loop of [run_deployment], runs
      out of the fuel that bounds the number of its iterations.
    - A greenlet is the rest of its body, a straight-line program of
      hand-offs to its parent ([IYield], [parent.switch()]) and raises.
      Every switch that starts or ends a greenlet is logged in [trace].
    - Python sets of markers are [gset string]; the [OrderedDict] of
      manifests is an association list in insertion order; the dict of
      drones is an association list in the dict's order.
    - The registered status callback is modelled as recording its
      arguments in [events]. *)

From Stdlib Require Import Ascii String List Bool Lia.
From stdpp Require Import base gmap sets list strings.

Open Scope string_scope.
Open Scope list_scope.

(** ** Python values and effects *)

Inductive exc :=
| KeyError (key : string)
| ValueError (msg : string)
| AttributeError (name : string)
| TaskFailure (n : nat)
  (** an exception raised by a plugin step or by a drone operation *).

Inductive instr := IYield | IRaise (n : nat).
Definition prog := list instr.

(** A greenlet that has been started: alive with the rest of its body, or dead. *)
Inductive glet := Alive (rest : prog) | Dead.

Inductive label :=
| LStep (func_name h : string)            (* greenlet(step) for host h *)
| LPost (h : string)                      (* post-run greenlet for host h *)
| LDeploy (marker h manifest : string).   (* greenlet(drone.deploy) *)

Inductive tev := Started | Finished | Failed.

Definition event : Type := (string * string * string)%type.

(** ** Data model *)

(** [drones.Drone]: only the operations the controller calls. *)
Record Drone := mkDrone {
  host : string;
  init_host : prog;
  discover : prog;
  configure : prog;
  make_build : prog;
  deploy : string -> prog;
  clean : option nat  (* [Some n]: drone.clean() raises *)
}.

(** A plan record [(host, manifest, marker, prereqs)]. *)
Definition plan_record : Type := (string * string * string * option (gset string))%type.

Inductive plan_result :=
| PRaises (n : nat)
| PReturns (records : option (list plan_record)).

(** A step callable: its [func_name], its run against one host, and its
    result when called as a plan step. *)
Record Step := mkStep {
  func_name : string;
  on_host : string -> prog;
  plan_ret : plan_result
}.

Record PluginData := mkPluginData {
  name : string;
  modules : list string;
  resources : list string;
  init_steps : list Step;
  prep_steps : list Step;
  plan_steps : list Step;
  clean_steps : list Step
}.

(** [self._plan] as created in [Controller.__init__]: the dict with keys
    'manifests', 'dependecy', 'waiting', 'in-progress', 'finished'. *)
Record Plan := mkPlan {
  manifests : list (string * list (string * string));
  dependecy : gmap string (gset string);
  waiting : gset string;
  in_progress : gset string;
  finished : gset string
}.

Definition init_plan : Plan := mkPlan [] ∅ ∅ ∅ ∅.

Record ctrl := mkCtrl {
  status_cb : bool;                (* 'status' in self._callbacks *)
  events : list event;             (* calls received by the status callback *)
  plugins : list PluginData;       (* self._plugins *)
  drones : list (string * Drone);  (* self._drones *)
  plan : Plan;                     (* self._plan *)
  trace : list (label * tev);      (* greenlet starts and ends *)
  added : list (string * string)   (* (host, manifest) given to add_manifest *)
}.

Definition with_events (s : ctrl) (ev : list event) : ctrl :=
  mkCtrl (status_cb s) ev (plugins s) (drones s) (plan s) (trace s) (added s).
Definition with_plan (s : ctrl) (p : Plan) : ctrl :=
  mkCtrl (status_cb s) (events s) (plugins s) (drones s) p (trace s) (added s).
Definition with_trace (s : ctrl) (t : list (label * tev)) : ctrl :=
  mkCtrl (status_cb s) (events s) (plugins s) (drones s) (plan s) t (added s).
Definition with_added (s : ctrl) (a : list (string * string)) : ctrl :=
  mkCtrl (status_cb s) (events s) (plugins s) (drones s) (plan s) (trace s) a.

(** ** The state and error monad *)

Inductive res (A : Type) :=
| Ok (a : A) (s : ctrl)
| Err (e : exc) (s : ctrl)
| OutOfFuel (s : ctrl).
Arguments Ok {A}.
Arguments Err {A}.
Arguments OutOfFuel {A}.

Definition M (A : Type) := ctrl -> res A.

Definition ret {A} (a : A) : M A := fun s => Ok a s.
Definition raise {A} (e : exc) : M A := fun s => Err e s.
Definition bind {A B} (c : M A) (k : A -> M B) : M B := fun s =>
  match c s with
  | Ok a s' => k a s'
  | Err e s' => Err e s'
  | OutOfFuel s' => OutOfFuel s'
  end.
Definition gets {A} (f : ctrl -> A) : M A := fun s => Ok (f s) s.
Definition modify (f : ctrl -> ctrl) : M unit := fun s => Ok tt (f s).

Notation "'let!' x ':=' c 'in' k" := (bind c (fun x => k))
  (at level 200, x binder, c at level 100, k at level 200).

Definition state_of {A} (r : res A) : ctrl :=
  match r with Ok _ s | Err _ s | OutOfFuel s => s end.

Definition modify_plan (f : Plan -> Plan) : M unit :=
  modify (fun s => with_plan s (f (plan s))).

(** [self._callbacks['status'](ut, un, us)] *)
Definition status (ut un us : string) : M unit := fun s =>
  if status_cb s then Ok tt (with_events s (events s ++ [(ut, un, us)]))
  else Err (KeyError "status") s.

Definition log (l : label) (t : tev) : M unit :=
  modify (fun s => with_trace s (trace s ++ [(l, t)])).

Fixpoint assoc {V} (k : string) (l : list (string * V)) : option V :=
  match l with
  | [] => None
  | (k', v) :: l' => if String.eqb k k' then Some v else assoc k l'
  end.

(** [self._drones[host]] *)
Definition lookup_drone (h : string) : M Drone := fun s =>
  match assoc h (drones s) with
  | Some d => Ok d s
  | None => Err (KeyError h) s
  end.

(** ** Greenlets *)

(** Switching into a greenlet runs its body up to its next hand-off to
    the parent, its return (dead) or its raise (dead, the exception is
    re-raised in the parent at the switch). *)
Definition run_segment (l : label) (p : prog) : M glet :=
  match p with
  | [] => let! _ := log l Finished in ret Dead
  | IYield :: k => ret (Alive k)
  | IRaise n :: _ => let! _ := log l Failed in raise (TaskFailure n)
  end.

(** [run = greenlet.greenlet(f); run.switch(...)] *)
Definition start (l : label) (p : prog) : M glet :=
  let! _ := log l Started in run_segment l p.

(** [wait_for_runners(runners)]: one pass over [list(runners)]; a dead
    runner is removed from the set, a live one is switched into once. *)
Fixpoint wait_for_runners (rs : list (label * glet)) : M (list (label * glet)) :=
  match rs with
  | [] => ret []
  | (l, Dead) :: rs' => wait_for_runners rs'
  | (l, Alive k) :: rs' =>
      let! g := run_segment l k in
      let! rest := wait_for_runners rs' in
      ret ((l, g) :: rest)
  end.

(** ** Controller._run_phase *)

(** [_install_puppet(drone)]: init_host, hand-off, discover, hand-off,
    configure.  The write of the discovered facts into [self._info] is not
    modelled: no property below reads HostInfo. *)
Definition _install_puppet (d : Drone) : prog :=
  (init_host d ++ [IYield] ++ discover d ++ [IYield] ++ configure d)%list.

(** [getattr(plugin, '{}_steps'.format(phase))] *)
Definition phase_steps (phase : string) (p : PluginData) : option (list Step) :=
  if String.eqb phase "init" then Some (init_steps p)
  else if String.eqb phase "prep" then Some (prep_steps p)
  else if String.eqb phase "plan" then Some (plan_steps p)
  else if String.eqb phase "clean" then Some (clean_steps p)
  else None.

(** [self._plan['manifests'].setdefault(marker, []).append(x)] *)
Fixpoint od_setdefault_append (marker : string) (x : string * string)
    (od : list (string * list (string * string))) : list (string * list (string * string)) :=
  match od with
  | [] => [(marker, [x])]
  | (k, v) :: od' =>
      if String.eqb k marker then (k, v ++ [x]) :: od'
      else (k, v) :: od_setdefault_append marker x od'
  end.

(** [self._plan[key]] for the dict-valued entry of the plan: only the key
    written in [__init__], 'dependecy', is present. *)
Definition get_dependency_map (key : string) : M (gmap string (gset string)) :=
  fun s =>
    if String.eqb key "dependecy" then Ok (dependecy (plan s)) s
    else Err (KeyError key) s.

Definition set_dependency_map (key : string) (m : gmap string (gset string)) : M unit :=
  fun s =>
    if String.eqb key "dependecy" then
      let p := plan s in
      Ok tt (with_plan s (mkPlan (manifests p) m (waiting p) (in_progress p) (finished p)))
    else Err (KeyError key) s.

(** One iteration of [for host, manifest, marker, prereqs in records]. *)
Definition add_record (r : plan_record) : M unit :=
  let '(h, manifest, marker, prereqs) := r in
  let! _ := lookup_drone h in
  (* self._drones[host].add_manifest(manifest) *)
  let! _ := modify (fun s => with_added s (added s ++ [(h, manifest)])) in
  (* self._plan['waiting'].add(marker) *)
  let! _ := modify_plan (fun p =>
    mkPlan (manifests p) (dependecy p) (waiting p ∪ {[marker]}) (in_progress p) (finished p)) in
  (* self._plan['manifests'].setdefault(marker, []).append((host, manifest)) *)
  let! _ := modify_plan (fun p =>
    mkPlan (od_setdefault_append marker (h, manifest) (manifests p)) (dependecy p)
      (waiting p) (in_progress p) (finished p)) in
  (* self._plan['dependency'].setdefault(marker, set()).update(prereqs or set()) *)
  let! dm := get_dependency_map "dependency" in
  set_dependency_map "dependency"
    (<[marker := default ∅ (dm !! marker) ∪ default ∅ prereqs]> dm).

Fixpoint add_records (rs : list plan_record) : M unit :=
  match rs with
  | [] => ret tt
  | r :: rs' => let! _ := add_record r in add_records rs'
  end.

(** The plan branch: [records = step(...); records = records or []]. *)
Definition run_plan_step (st : Step) : M unit :=
  match plan_ret st with
  | PRaises n => raise (TaskFailure n)
  | PReturns recs => add_records (default [] recs)
  end.

(** The other branch: one greenlet per drone, each switched into at once. *)
Fixpoint start_step_runners (st : Step) (ds : list (string * Drone))
    : M (list (label * glet)) :=
  match ds with
  | [] => ret []
  | (h, _) :: ds' =>
      let! g := start (LStep (func_name st) h) (on_host st h) in
      let! rest := start_step_runners st ds' in
      ret ((LStep (func_name st) h, g) :: rest)
  end.

Definition run_step (phase : string) (st : Step) : M unit :=
  let! _ := status "step" (func_name st) "start" in
  let! _ :=
    (if String.eqb phase "plan" then run_plan_step st
     else
       let! ds := gets drones in
       let! runners := start_step_runners st ds in
       let! _ := wait_for_runners runners in
       ret tt) in
  status "step" (func_name st) "end".

Fixpoint run_steps (phase : string) (sts : list Step) : M unit :=
  match sts with
  | [] => ret tt
  | st :: sts' => let! _ := run_step phase st in run_steps phase sts'
  end.

(** [for step in self._iter_phase(phase)]: the generator reads each
    plugin's step list when it reaches that plugin. *)
Fixpoint run_plugin_steps (phase : string) (ps : list PluginData) : M unit :=
  match ps with
  | [] => ret tt
  | p :: ps' =>
      match phase_steps phase p with
      | None => raise (AttributeError (String.append phase "_steps"))
      | Some sts => let! _ := run_steps phase sts in run_plugin_steps phase ps'
      end
  end.

(** The phase post-run loop; [break] on phases other than init and plan. *)
Fixpoint start_post_runners (phase : string) (ds : list (string * Drone))
    : M (list (label * glet)) :=
  match ds with
  | [] => ret []
  | (h, d) :: ds' =>
      if String.eqb phase "init" then
        let! g := start (LPost h) (_install_puppet d) in
        let! rest := start_post_runners phase ds' in
        ret ((LPost h, g) :: rest)
      else if String.eqb phase "plan" then
        let! g := start (LPost h) (make_build d) in
        let! rest := start_post_runners phase ds' in
        ret ((LPost h, g) :: rest)
      else ret []
  end.

Definition _run_phase (phase : string) : M unit :=
  let! _ := status "phase" phase "start" in
  let! ps := gets plugins in
  let! _ := run_plugin_steps phase ps in
  let! ds := gets drones in
  let! runners := start_post_runners phase ds in
  let! _ := wait_for_runners runners in
  status "phase" phase "end".

(** ** Controller.run_deployment *)

(** Unpacking a string into two names: Python iterates its characters. *)
Definition unpack2 (v : string) : option (string * string) :=
  match v with
  | String a (String b EmptyString) => Some (String a EmptyString, String b EmptyString)
  | _ => None
  end.

Fixpoint chars (v : string) : list string :=
  match v with
  | EmptyString => []
  | String a v' => String a EmptyString :: chars v'
  end.

(** The local dict [runners]: marker -> set of greenlets. *)
Definition runners_map : Type := list (string * list (label * glet)).

Fixpoint rm_set (marker : string) (rs : list (label * glet)) (rm : runners_map) : runners_map :=
  match rm with
  | [] => [(marker, rs)]
  | (k, v) :: rm' => if String.eqb k marker then (k, rs) :: rm' else (k, v) :: rm_set marker rs rm'
  end.

(** [runners.setdefault(marker, set()).add(run)] *)
Definition rm_add (marker : string) (x : label * glet) (rm : runners_map) : runners_map :=
  rm_set marker (default [] (assoc marker rm) ++ [x]) rm.

(** [for host, manifest in manifests: ...] starting the deploy greenlets. *)
Fixpoint start_deploys (marker : string) (items : list string) (rm : runners_map)
    : M runners_map :=
  match items with
  | [] => ret rm
  | it :: its =>
      match unpack2 it with
      | None => raise (ValueError "unpack")
      | Some (h, manifest) =>
          let! d := lookup_drone h in
          let! g := start (LDeploy marker h manifest) (deploy d manifest) in
          start_deploys marker its (rm_add marker (LDeploy marker h manifest, g) rm)
      end
  end.

(** Python's [set.remove]: KeyError when absent. *)
Definition set_remove (x : string) (S : gset string) : option (gset string) :=
  if decide (x ∈ S) then Some (S ∖ {[x]}) else None.

Definition remove_waiting (marker : string) : M unit := fun s =>
  let p := plan s in
  match set_remove marker (waiting p) with
  | None => Err (KeyError marker) s
  | Some w => Ok tt (with_plan s (mkPlan (manifests p) (dependecy p) w (in_progress p) (finished p)))
  end.

Definition remove_in_progress (marker : string) : M unit := fun s =>
  let p := plan s in
  match set_remove marker (in_progress p) with
  | None => Err (KeyError marker) s
  | Some ip => Ok tt (with_plan s (mkPlan (manifests p) (dependecy p) (waiting p) ip (finished p)))
  end.

(** One pass of [for marker, manifests in self._plan['manifests']]:
    iterating the OrderedDict yields its keys, each unpacked in two. *)
Fixpoint scan (keys : list string) (rm : runners_map) : M runners_map :=
  match keys with
  | [] => ret rm
  | key :: keys' =>
      match unpack2 key with
      | None => raise (ValueError "unpack")
      | Some (marker, mfs) =>
          let! p := gets plan in
          if decide (marker ∈ finished p) then scan keys' rm else
          let! dm := get_dependency_map "dependency" in
          match dm !! marker with
          | None => raise (KeyError marker)
          | Some deps =>
              if decide (deps ∖ finished p ≠ ∅) then scan keys' rm else
              let! rm1 :=
                (if bool_decide (is_Some (assoc marker rm)) then ret rm
                 else
                   let! _ := remove_waiting marker in
                   let! _ := modify_plan (fun p =>
                     mkPlan (manifests p) (dependecy p) (waiting p)
                       (in_progress p ∪ {[marker]}) (finished p)) in
                   start_deploys marker (chars mfs) rm) in
              match assoc marker rm1 with
              | None => raise (KeyError marker)
              | Some rs =>
                  let! rs' := wait_for_runners rs in
                  let rm2 := rm_set marker rs' rm1 in
                  let! _ :=
                    (match rs' with
                     | [] =>
                         let! _ := modify_plan (fun p =>
                           mkPlan (manifests p) (dependecy p) (waiting p)
                             (in_progress p) (finished p ∪ {[marker]})) in
                         remove_in_progress marker
                     | _ => ret tt
                     end) in
                  scan keys' rm2
              end
          end
      end
  end.

(** [while self._plan['waiting'] or self._plan['in-progress']: ...];
    [fuel] bounds the number of iterations. *)
Fixpoint deploy_loop (fuel : nat) (rm : runners_map) : M unit :=
  let! p := gets plan in
  if bool_decide (waiting p = ∅ ∧ in_progress p = ∅) then ret tt else
  match fuel with
  | O => fun s => OutOfFuel s
  | S f =>
      let! rm' := scan (map fst (manifests p)) rm in
      deploy_loop f rm'
  end.

Definition run_deployment (fuel : nat) : M unit :=
  let! _ := status "phase" "deployment" "start" in
  let! _ := deploy_loop fuel [] in
  status "phase" "deployment" "end".

(** ** run_init and run_cleanup *)

(** The names [self.<name>] resolves to on a Controller: instance
    attributes set in [__init__] and the methods of the class. *)
Definition Controller_attrs : list string :=
  ["_callbacks"; "_messages"; "_tmpdir"; "_plugin_modules"; "_config";
   "_plugins"; "_drones"; "_info"; "_plan"; "__init__"; "_iter_phase";
   "_run_phase"; "run_init"; "run_deployment"; "run_cleanup";
   "register_status_callback"].

(** What [self.run_phase] evaluates to: a phase runner, or nothing
    (AttributeError).  On a Controller there is no such attribute. *)
Definition Controller_run_phase : option (string -> M unit) :=
  if bool_decide ("run_phase" ∈ Controller_attrs) then Some _run_phase else None.

Definition run_init (run_phase : option (string -> M unit)) : M unit :=
  match run_phase with
  | None => raise (AttributeError "run_phase")
  | Some f =>
      let! _ := f "init" in
      let! _ := f "prep" in
      f "plan"
  end.

Fixpoint clean_drones (ds : list (string * Drone)) : M unit :=
  match ds with
  | [] => ret tt
  | (_, d) :: ds' =>
      match clean d with
      | Some n => raise (TaskFailure n)
      | None => clean_drones ds'
      end
  end.

Definition run_cleanup (run_phase : option (string -> M unit)) : M unit :=
  let! _ := status "phase" "cleanup" "start" in
  let! _ :=
    (match run_phase with
     | None => raise (AttributeError "run_phase")
     | Some f => f "clean"
     end) in
  let! ds := gets drones in
  let! _ := clean_drones ds in
  status "phase" "cleanuo" "end".

(** ** Controller.__init__: registering resources and modules *)

(** [for drone in self._drones:] iterates the keys of the dict, the host
    names, so [drone] is a str.  [str_attrs] are the public attributes of
    Python's str; an attribute outside it raises AttributeError. *)
Definition str_attrs : list string :=
  ["capitalize"; "casefold"; "center"; "count"; "encode"; "endswith";
   "expandtabs"; "find"; "format"; "format_map"; "index"; "isalnum";
   "isalpha"; "isascii"; "isdecimal"; "isdigit"; "isidentifier"; "islower";
   "isnumeric"; "isprintable"; "isspace"; "istitle"; "isupper"; "join";
   "ljust"; "lower"; "lstrip"; "maketrans"; "partition"; "removeprefix";
   "removesuffix"; "replace"; "rfind"; "rindex"; "rjust"; "rpartition";
   "rsplit"; "rstrip"; "split"; "splitlines"; "startswith"; "strip";
   "swapcase"; "title"; "translate"; "upper"; "zfill"].

(** [getattr(host, attr)] on a str: [None] when the attribute exists. *)
Definition str_getattr (attr : string) : option exc :=
  if bool_decide (attr ∈ str_attrs) then None else Some (AttributeError attr).

(** [for item in items: drone.<attr>(item)] *)
Fixpoint register_items (drone attr : string) (items : list string) : option exc :=
  match items with
  | [] => None
  | _ :: items' =>
      match str_getattr attr with
      | Some e => Some e
      | None => register_items drone attr items'
      end
  end.

(** [for drone in self._drones: for resource in plug.resources: ...;
    for module in plug.modules: ...] *)
Fixpoint register_hosts (plug : PluginData) (hosts : list string) : option exc :=
  match hosts with
  | [] => None
  | drone :: hosts' =>
      match register_items drone "add_resource" (resources plug) with
      | Some e => Some e
      | None =>
          match register_items drone "add_module" (modules plug) with
          | Some e => Some e
          | None => register_hosts plug hosts'
          end
      end
  end.

(** [for plug in self._plugins: ...]; [None] when the loop completes. *)
Fixpoint register_plugins (ps : list PluginData) (hosts : list string) : option exc :=
  match ps with
  | [] => None
  | plug :: ps' =>
      match register_hosts plug hosts with
      | Some e => Some e
      | None => register_plugins ps' hosts
      end
  end.

(** ** Draining runners by repeated calls *)

(** [n] successive calls of [wait_for_runners], each on the set the
    previous one left. *)
Fixpoint wait_n (n : nat) (rs : list (label * glet)) : M (list (label * glet)) :=
  match n with
  | O => ret rs
  | S n' => let! rs' := wait_for_runners rs in wait_n n' rs'
  end.

(** The number of calls after which a runner is no longer in the set: a
    dead one is removed by the next call; a live one with [k] hand-offs
    left needs [k] calls to reach its return, one to return, one to be
    removed. *)
Definition passes_needed (g : glet) : nat :=
  match g with Dead => 1 | Alive k => List.length k + 2 end.

(** ** kanzo/utils/strings.py *)

(** [STR_MASK = '*' * 8] *)
Definition STR_MASK : string := "********".

(** [s.replace('', new)]: [new] before every character and at the end. *)
Fixpoint replace_empty (new s : string) : string :=
  match s with
  | EmptyString => new
  | String c s' => String.append new (String c (replace_empty new s'))
  end.

Fixpoint sdrop (n : nat) (s : string) : string :=
  match n, s with
  | O, _ => s
  | S _, EmptyString => EmptyString
  | S n', String _ s' => sdrop n' s'
  end.

(** [s.replace(old, new)] for a non-empty [old]: the occurrences of [old]
    found scanning left to right, without overlap, are replaced.  [fuel]
    bounds the recursion; [String.length s] is enough. *)
Fixpoint replace_from (fuel : nat) (old new s : string) : string :=
  match fuel with
  | O => s
  | S f =>
      match s with
      | EmptyString => EmptyString
      | String c s' =>
          if String.prefix old s
          then String.append new (replace_from f old new (sdrop (String.length old) s))
          else String c (replace_from f old new s')
      end
  end.

(** Python's [str.replace(old, new)]. *)
Definition py_replace (old new s : string) : string :=
  match old with
  | EmptyString => replace_empty new s
  | _ => replace_from (String.length s) old new s
  end.

(** [for before, after in replace_list: word = word.replace(before, after)] *)
Definition apply_replacements (word : string) (replace_list : list (string * string)) : string :=
  fold_left (fun w ba => py_replace (fst ba) (snd ba) w) replace_list word.

(** The loop [for word in mask_list: ...] of [mask_string]. *)
Fixpoint mask_loop (masked : string) (mask_list : list string)
    (replace_list : list (string * string)) : string :=
  match mask_list with
  | [] => masked
  | word :: words =>
      if String.eqb word "" then mask_loop masked words replace_list
      else mask_loop (py_replace (apply_replacements word replace_list) STR_MASK masked)
             words replace_list
  end.

(** [mask_string(unmasked, mask_list=None, replace_list=None)]; [None]
    stands for Python's None, and [x or []] gives [[]] for it. *)
Definition mask_string (unmasked : string) (mask_list : option (list string))
    (replace_list : option (list (string * string))) : string :=
  mask_loop unmasked (default [] mask_list) (default [] replace_list).

(** [w in s] *)
Fixpoint contains (w s : string) : bool :=
  String.prefix w s ||
  match s with
  | EmptyString => false
  | String _ s' => contains w s'
  end.

(** No character of [w] is '*'. *)
Fixpoint no_star (w : string) : bool :=
  match w with
  | EmptyString => true
  | String c w' => negb (Ascii.eqb c "*"%char) && no_star w'
  end.

(** ** tests/plugins/sql.py *)

(** [length_validator(value, key, config)]: [Some e] when it raises. *)
Definition length_validator (value : string) : option exc :=
  if Nat.ltb (String.length value) 8 then Some (ValueError "Password is too short.") else None.

(** [password_processor(value, key, config)]; [uuid_hex] is the value of
    [uuid.uuid4().hex] at the call. *)
Definition password_processor (uuid_hex value : string) : string :=
  if String.eqb value "" then substring 0 8 uuid_hex else value.

(** ** Predicates and configurations for the reasoning *)

(** Predicates kept by a computation, whatever its outcome. *)
Definition preserves {A} (P : ctrl -> Prop) (c : M A) : Prop :=
  forall s, P s -> P (state_of (c s)).

(** The events a computation appends, all satisfying [Q]. *)
Definition emits_only {A} (Q : event -> Prop) (c : M A) : Prop :=
  forall s, exists l, events (state_of (c s)) = events s ++ l /\ Forall Q l.

Definition keeps_plan {A} (c : M A) : Prop :=
  forall Q : Plan -> Prop, preserves (fun s => Q (plan s)) c.

(** Every marker key of [manifests] is [waiting] and conversely; nothing
    is in progress or finished. *)
Definition plan_inv (p : Plan) : Prop :=
  (forall m, m ∈ waiting p <-> In m (map fst (manifests p))) /\
  in_progress p = ∅ /\ finished p = ∅.

Definition Inv (s : ctrl) : Prop := plan_inv (plan s).

Definition yields_only (p : prog) : Prop := Forall (fun i => i = IYield) p.

Definition glet_ok (g : glet) : Prop :=
  match g with Dead => True | Alive k => yields_only k end.

(** From every state with a registered callback, drones [ds] and plugins
    [ps], [c] returns normally with [P] of its result, having sent exactly
    the events [l] to the callback and only extended the greenlet trace. *)
Definition runs (ds : list (string * Drone)) (ps : list PluginData) (l : list event)
    {A} (P : A -> Prop) (c : M A) : Prop :=
  forall s, status_cb s = true -> drones s = ds -> plugins s = ps ->
  exists a t, c s = Ok a (with_trace (with_events s (events s ++ l)) t) /\ P a.

Definition keeps_events {A} (c : M A) : Prop :=
  forall e0, preserves (fun s => events s = e0) c.

(** The events [_run_phase phase] sends: phase events for [phase] and step events. *)
Definition phase_event (phase : string) (ev : event) : Prop :=
  (ev.1.1 = "phase" /\ ev.1.2 = phase) \/ ev.1.1 = "step".

(** *** Greenlet logs *)

Definition is_step_label (l : label) : Prop :=
  match l with LStep _ _ => True | _ => False end.

(** [c] keeps the drones and the plugins, only appends entries
    satisfying [L] to the greenlet trace, and returns results with [R]. *)
Definition lg (L : label * tev -> Prop) {A} (R : A -> Prop) (c : M A) : Prop :=
  forall s, drones (state_of (c s)) = drones s /\ plugins (state_of (c s)) = plugins s /\
    exists t, trace (state_of (c s)) = trace s ++ t /\ Forall L t /\
      (forall a s', c s = Ok a s' -> R a).

Definition step_entry (e : label * tev) : Prop := is_step_label (fst e).

Definition not_failed (e : label * tev) : Prop := snd e <> Failed.

(** When [c] returns normally, the entries it appended satisfy [Q]. *)
Definition ok_logs (Q : label * tev -> Prop) {A} (c : M A) : Prop :=
  forall s a s', c s = Ok a s' -> exists t, trace s' = trace s ++ t /\ Forall Q t.

(** One pass of [wait_for_runners] on runners that only hand off. *)
Definition adv (g : glet) : option glet :=
  match g with
  | Dead => None
  | Alive [] => Some Dead
  | Alive (_ :: k) => Some (Alive k)
  end.

Definition pass (rs : list (label * glet)) : list (label * glet) :=
  flat_map (fun lg => match adv (snd lg) with None => [] | Some g => [(fst lg, g)] end) rs.

(** *** Phases that return normally *)

Definition known_phases : list string := ["init"; "prep"; "plan"; "clean"].

(** The steps [_iter_phase(phase)] yields. *)
Definition all_steps (phase : string) (ps : list PluginData) : list Step :=
  flat_map (fun p => default [] (phase_steps phase p)) ps.

Definition step_events (st : Step) : list event :=
  [("step", func_name st, "start"); ("step", func_name st, "end")].

(** A step that returns normally: in the plan phase, with no record; in
    the others, handing off only, on every host. *)
Definition step_ok (phase : string) (ds : list (string * Drone)) (st : Step) : Prop :=
  if String.eqb phase "plan" then plan_ret st = PReturns None \/ plan_ret st = PReturns (Some [])
  else Forall (fun hd => yields_only (on_host st (fst hd))) ds.

(** The post-run greenlet of the phase, if any, hands off only. *)
Definition post_ok (phase : string) (d : Drone) : Prop :=
  if String.eqb phase "init" then yields_only (_install_puppet d)
  else if String.eqb phase "plan" then yields_only (make_build d)
  else True.

(** ** Concrete configurations *)

Definition drone_ok (h : string) : Drone := mkDrone h [] [] [] [] (fun _ => []) None.

(** One plan step generating one manifest for host1 under markerA. *)
Definition plan_step_a : Step :=
  mkStep "plan_sql" (fun _ => []) (PReturns (Some [("host1", "m1", "markerA", None)])).
Definition sql_plugin : PluginData := mkPluginData "sql" [] [] [] [] [plan_step_a] [].
Definition st_plan : ctrl :=
  mkCtrl true [] [sql_plugin] [("host1", drone_ok "host1")] init_plan [] [].
(** The controller after its plan phase. *)
Definition st_planned : ctrl := state_of (_run_phase "plan" st_plan).

(** Two prep steps; the first hands control back twice before returning. *)
Definition step_one : Step := mkStep "step_one" (fun _ => [IYield; IYield]) (PReturns None).
Definition step_two : Step := mkStep "step_two" (fun _ => []) (PReturns None).
Definition prep_plugin : PluginData := mkPluginData "prep" [] [] [] [step_one; step_two] [] [].
Definition st_prep : ctrl :=
  mkCtrl true [] [prep_plugin] [("host1", drone_ok "host1")] init_plan [] [].

(** A plan whose markers mA and mB require each other.  Their names have
    two characters, so that unpacking a key succeeds and the scan reaches
    the prerequisite check. *)
Definition cyclic_plan : Plan :=
  mkPlan [("mA", [("host1", "m1")]); ("mB", [("host1", "m2")])]
    (<["mA" := {["mB"]}]> (<["mB" := {["mA"]}]> ∅)) ({["mA"]} ∪ {["mB"]}) ∅ ∅.
Definition st_cyclic : ctrl :=
  mkCtrl true [] [] [("host1", drone_ok "host1")] cyclic_plan [] [].

(** One init step, one host. *)
Definition init_step : Step := mkStep "install_db" (fun _ => [IYield]) (PReturns None).
Definition init_plugin : PluginData := mkPluginData "db" [] [] [init_step] [] [] [].
Definition st_init : ctrl :=
  mkCtrl true [] [init_plugin] [("host1", drone_ok "host1")] init_plan [] [].

Definition st_no_callback : ctrl :=
  mkCtrl false [] [] [("host1", drone_ok "host1")] init_plan [] [].

(** The controller with the prerequisite map of its plan replaced by [dm]. *)
Definition with_deps (s : ctrl) (dm : gmap string (gset string)) : ctrl :=
  with_plan s (mkPlan (manifests (plan s)) dm (waiting (plan s)) (in_progress (plan s))
                 (finished (plan s))).

Definition res_with_deps {A} (dm : gmap string (gset string)) (r : res A) : res A :=
  match r with
  | Ok a s => Ok a (with_deps s dm)
  | Err e s => Err e (with_deps s dm)
  | OutOfFuel s => OutOfFuel (with_deps s dm)
  end.

Definition new_trace (s s' : ctrl) : list (label * tev) := drop (length (trace s)) (trace s').

Definition deployed (fuel : nat) (s : ctrl) : ctrl := state_of (run_deployment fuel s).

(** ** Reasoning tools *)

Lemma preserves_bind {A B} P (c : M A) (k : A -> M B) :
  preserves P c -> (forall a, preserves P (k a)) -> preserves P (bind c k).
Proof.
  intros Hc Hk s Hs. unfold bind. specialize (Hc s Hs).
  destruct (c s) as [a s'|e s'|s']; simpl in *; auto.
  apply Hk; exact Hc.
Qed.

Lemma keeps_plan_bind {A B} (c : M A) (k : A -> M B) :
  keeps_plan c -> (forall a, keeps_plan (k a)) -> keeps_plan (bind c k).
Proof. intros Hc Hk Q. apply preserves_bind; [apply Hc | intros a; apply Hk]. Qed.

Lemma keeps_plan_ret {A} (a : A) : keeps_plan (ret a).
Proof. intros Q s H. exact H. Qed.

Lemma keeps_plan_raise {A} e : keeps_plan (@raise A e).
Proof. intros Q s H. exact H. Qed.

Lemma keeps_plan_gets {A} (f : ctrl -> A) : keeps_plan (gets f).
Proof. intros Q s H. exact H. Qed.

Lemma keeps_plan_status ut un us : keeps_plan (status ut un us).
Proof. intros Q s H. unfold status. destruct (status_cb s); exact H. Qed.

Lemma keeps_plan_log l t : keeps_plan (log l t).
Proof. intros Q s H. exact H. Qed.

Lemma keeps_plan_lookup_drone h : keeps_plan (lookup_drone h).
Proof. intros Q s H. unfold lookup_drone. destruct (assoc h (drones s)); exact H. Qed.

Lemma keeps_plan_out_of_fuel {A} : keeps_plan (fun s => @OutOfFuel A s).
Proof. intros Q s H. exact H. Qed.

Create HintDb ctrl.
#[local] Hint Resolve keeps_plan_ret keeps_plan_raise keeps_plan_gets keeps_plan_status
  keeps_plan_log keeps_plan_lookup_drone keeps_plan_out_of_fuel : ctrl.

Ltac keep := repeat (apply keeps_plan_bind; [|intro]); auto with ctrl.

Lemma keeps_plan_run_segment l p : keeps_plan (run_segment l p).
Proof. destruct p as [|[|n] k]; unfold run_segment; keep. Qed.

Lemma keeps_plan_start l p : keeps_plan (start l p).
Proof. unfold start. keep. apply keeps_plan_run_segment. Qed.
#[local] Hint Resolve keeps_plan_run_segment keeps_plan_start : ctrl.

Lemma keeps_plan_wait_for_runners rs : keeps_plan (wait_for_runners rs).
Proof. induction rs as [|[l [k|]] rs IH]; cbn [wait_for_runners]; keep. Qed.
#[local] Hint Resolve keeps_plan_wait_for_runners : ctrl.

Lemma keeps_plan_start_step_runners st ds : keeps_plan (start_step_runners st ds).
Proof. induction ds as [|[h d] ds IH]; cbn [start_step_runners]; keep. Qed.

Lemma keeps_plan_start_post_runners phase ds : keeps_plan (start_post_runners phase ds).
Proof.
  induction ds as [|[h d] ds IH]; cbn [start_post_runners]; [keep|].
  destruct (String.eqb phase "init"); [keep|].
  destruct (String.eqb phase "plan"); keep.
Qed.

Lemma keeps_plan_clean_drones ds : keeps_plan (clean_drones ds).
Proof. induction ds as [|[h d] ds IH]; cbn [clean_drones]; [keep|]. destruct (clean d); keep. Qed.
#[local] Hint Resolve keeps_plan_start_step_runners keeps_plan_start_post_runners
  keeps_plan_clean_drones : ctrl.

(** *** The scan of [run_deployment] never gets past the dependency lookup *)

Lemma scan_cons_eq (k : string) (keys : list string) (rm : runners_map) (s : ctrl) :
  scan (k :: keys) rm s =
  match unpack2 k with
  | None => Err (ValueError "unpack") s
  | Some (m, _) =>
      if decide (m ∈ finished (plan s)) then scan keys rm s
      else Err (KeyError "dependency") s
  end.
Proof.
  cbn [scan]. destruct (unpack2 k) as [[m mfs]|]; [|reflexivity].
  unfold bind at 1, gets. destruct (decide (m ∈ finished (plan s))); reflexivity.
Qed.

Lemma scan_stalls (keys : list string) (rm : runners_map) (s : ctrl) :
  scan keys rm s = Ok rm s \/
  scan keys rm s = Err (ValueError "unpack") s \/
  scan keys rm s = Err (KeyError "dependency") s.
Proof.
  induction keys as [|k keys IH]; [left; reflexivity|].
  rewrite scan_cons_eq.
  destruct (unpack2 k) as [[m mfs]|]; [|right; left; reflexivity].
  destruct (decide (m ∈ finished (plan s))); [exact IH|].
  right; right; reflexivity.
Qed.

Lemma deploy_loop_eq (fuel : nat) (rm : runners_map) (s : ctrl) :
  deploy_loop fuel rm s =
  if bool_decide (waiting (plan s) = ∅ /\ in_progress (plan s) = ∅) then Ok tt s
  else match fuel with
       | O => OutOfFuel s
       | S f => bind (scan (map fst (manifests (plan s))) rm) (deploy_loop f) s
       end.
Proof.
  destruct fuel; cbn [deploy_loop]; unfold bind at 1, gets;
    destruct (bool_decide _); reflexivity.
Qed.

Lemma deploy_loop_stalls (fuel : nat) (rm : runners_map) (s : ctrl) :
  (waiting (plan s) = ∅ /\ in_progress (plan s) = ∅ /\ deploy_loop fuel rm s = Ok tt s) \/
  deploy_loop fuel rm s = OutOfFuel s \/
  deploy_loop fuel rm s = Err (ValueError "unpack") s \/
  deploy_loop fuel rm s = Err (KeyError "dependency") s.
Proof.
  revert rm. induction fuel as [|fuel IH]; intros rm; rewrite deploy_loop_eq.
  - case_bool_decide as Hc; [left; destruct Hc; auto|right; left; reflexivity].
  - case_bool_decide as Hc; [left; destruct Hc; auto|].
    unfold bind.
    destruct (scan_stalls (map fst (manifests (plan s))) rm s) as [E|[E|E]]; rewrite E;
      [|right; right; left; reflexivity|right; right; right; reflexivity].
    destruct (IH rm) as [[Hw [Hi _]]|H]; [tauto|right; exact H].
Qed.

Lemma deploy_loop_done (fuel : nat) (rm : runners_map) (s : ctrl) :
  waiting (plan s) = ∅ -> in_progress (plan s) = ∅ -> deploy_loop fuel rm s = Ok tt s.
Proof.
  intros Hw Hi. rewrite deploy_loop_eq, bool_decide_true by auto. reflexivity.
Qed.

Lemma keeps_plan_deploy_loop fuel rm : keeps_plan (deploy_loop fuel rm).
Proof.
  intros Q s H.
  destruct (deploy_loop_stalls fuel rm s) as [[_ [_ E]]|[E|[E|E]]]; rewrite E; exact H.
Qed.
#[local] Hint Resolve keeps_plan_deploy_loop : ctrl.

Lemma keeps_plan_run_deployment fuel : keeps_plan (run_deployment fuel).
Proof. unfold run_deployment. keep. Qed.

(** *** The plans the controller builds *)

Lemma od_keys (m m' : string) (x : string * string) od :
  In m' (map fst (od_setdefault_append m x od)) <-> m' = m \/ In m' (map fst od).
Proof.
  induction od as [|[k v] od IH]; cbn [od_setdefault_append map fst].
  - simpl. intuition (subst; auto).
  - destruct (String.eqb_spec k m) as [->|Hne]; simpl.
    + intuition (subst; auto).
    + rewrite IH. intuition (subst; auto).
Qed.

(** One plan record: the drone lookup, [add_manifest], the insertions into
    [waiting] and [manifests], then the KeyError of ['dependency']. *)
Lemma add_record_eq (h manifest marker : string) (prereqs : option (gset string)) (s : ctrl) :
  add_record (h, manifest, marker, prereqs) s =
  match assoc h (drones s) with
  | None => Err (KeyError h) s
  | Some _ =>
      let p := plan s in
      Err (KeyError "dependency")
        (with_plan (with_added s (added s ++ [(h, manifest)]))
           (mkPlan (od_setdefault_append marker (h, manifest) (manifests p)) (dependecy p)
              (waiting p ∪ {[marker]}) (in_progress p) (finished p)))
  end.
Proof. unfold add_record, bind at 1, lookup_drone. destruct (assoc h (drones s)); reflexivity. Qed.

Lemma add_record_inv r : preserves Inv (add_record r).
Proof.
  destruct r as [[[h manifest] marker] prereqs]. intros s [Hw [Hi Hf]].
  rewrite add_record_eq. destruct (assoc h (drones s)); [|split; auto].
  unfold Inv, plan_inv; cbn. split; [|split; auto].
  intros m. rewrite od_keys, elem_of_union, elem_of_singleton, Hw. tauto.
Qed.

Lemma keeps_plan_inv {A} (c : M A) : keeps_plan c -> preserves Inv c.
Proof. intros H. exact (H plan_inv). Qed.

Ltac inv_keep :=
  repeat (apply preserves_bind; [|intro]);
  try solve [apply keeps_plan_inv; keep | assumption].

Lemma add_records_inv rs : preserves Inv (add_records rs).
Proof.
  induction rs as [|r rs IH]; cbn [add_records]; inv_keep.
  apply add_record_inv.
Qed.

Lemma run_step_inv phase st : preserves Inv (run_step phase st).
Proof.
  unfold run_step. inv_keep.
  destruct (String.eqb phase "plan"); [|keep].
  unfold run_plan_step. destruct (plan_ret st); [inv_keep|apply add_records_inv].
Qed.

Lemma run_plugin_steps_inv phase ps : preserves Inv (run_plugin_steps phase ps).
Proof.
  induction ps as [|p ps IH]; cbn [run_plugin_steps]; [inv_keep|].
  destruct (phase_steps phase p) as [sts|]; [|inv_keep].
  apply preserves_bind; [|intros; exact IH].
  induction sts as [|st sts IHs]; cbn [run_steps]; [inv_keep|].
  apply preserves_bind; [apply run_step_inv|intros; exact IHs].
Qed.

Lemma run_phase_inv phase : preserves Inv (_run_phase phase).
Proof.
  unfold _run_phase. inv_keep. apply run_plugin_steps_inv.
Qed.

(** A Controller has no attribute [run_phase]. *)
Lemma Controller_run_phase_missing : Controller_run_phase = None.
Proof. reflexivity. Qed.

(** The plans the controller can hold: [__init__] builds one satisfying
    [plan_inv], and every public step of a run keeps it. *)
Lemma plan_inv_reachable :
  plan_inv init_plan /\
  (forall phase, preserves Inv (_run_phase phase)) /\
  (forall fuel, preserves Inv (run_deployment fuel)) /\
  preserves Inv (run_init Controller_run_phase) /\
  preserves Inv (run_cleanup Controller_run_phase).
Proof.
  split; [|split; [exact run_phase_inv|split; [|split]]].
  - split; [|split; reflexivity]. intros m. cbn. set_solver.
  - intros fuel. apply keeps_plan_inv, keeps_plan_run_deployment.
  - apply keeps_plan_inv. rewrite Controller_run_phase_missing. unfold run_init. keep.
  - apply keeps_plan_inv. rewrite Controller_run_phase_missing. unfold run_cleanup. keep.
Qed.

(** *** Runs that return normally *)

Lemma state_eta (s : ctrl) : with_trace (with_events s (events s ++ [])) (trace s) = s.
Proof. destruct s; unfold with_trace, with_events; cbn. rewrite app_nil_r. reflexivity. Qed.

Lemma runs_bind ds ps l1 l2 {A B} (P : A -> Prop) (Q : B -> Prop) (c : M A) (k : A -> M B) :
  runs ds ps l1 P c -> (forall a, P a -> runs ds ps l2 Q (k a)) ->
  runs ds ps (l1 ++ l2) Q (bind c k).
Proof.
  intros Hc Hk s Hcb Hd Hp. destruct (Hc s Hcb Hd Hp) as (a & t & E & Pa).
  unfold bind. rewrite E.
  destruct (Hk a Pa (with_trace (with_events s (events s ++ l1)) t) Hcb Hd Hp)
    as (b & t2 & E2 & Qb).
  exists b, t2. split; [|exact Qb]. rewrite E2.
  unfold with_trace, with_events; cbn. rewrite app_assoc. reflexivity.
Qed.

Lemma runs_ret ds ps {A} (a : A) : runs ds ps [] (fun x => x = a) (ret a).
Proof. intros s _ _ _. exists a, (trace s). rewrite state_eta. split; reflexivity. Qed.

Lemma runs_gets_drones ds ps : runs ds ps [] (fun x => x = ds) (gets drones).
Proof. intros s _ Hd _. exists (drones s), (trace s). rewrite state_eta. split; auto. Qed.

Lemma runs_gets_plugins ds ps : runs ds ps [] (fun x => x = ps) (gets plugins).
Proof. intros s _ _ Hp. exists (plugins s), (trace s). rewrite state_eta. split; auto. Qed.

Lemma runs_status ds ps ut un us : runs ds ps [(ut, un, us)] (fun _ => True) (status ut un us).
Proof.
  intros s Hcb _ _. unfold status. rewrite Hcb. exists tt, (trace s). split; [|exact I].
  destruct s; reflexivity.
Qed.

Lemma runs_log ds ps l t : runs ds ps [] (fun _ => True) (log l t).
Proof.
  intros s _ _ _. exists tt, (trace s ++ [(l, t)]). split; [|exact I].
  destruct s; unfold log, modify, with_trace, with_events; cbn. rewrite app_nil_r. reflexivity.
Qed.

Lemma runs_weaken ds ps l {A} (P Q : A -> Prop) c :
  runs ds ps l P c -> (forall a, P a -> Q a) -> runs ds ps l Q c.
Proof.
  intros H HPQ s Hcb Hd Hp. destruct (H s Hcb Hd Hp) as (a & t & E & Pa). eauto.
Qed.

Lemma runs_run_segment ds ps lab p :
  yields_only p -> runs ds ps [] glet_ok (run_segment lab p).
Proof.
  intros Hy. destruct p as [|i k]; unfold run_segment.
  - rewrite <- (app_nil_r []). eapply runs_bind; [apply runs_log|].
    intros _ _. eapply runs_weaken; [apply runs_ret|]. intros a ->. exact I.
  - inversion Hy as [|? ? Hi Hk]; subst.
    eapply runs_weaken; [apply runs_ret|]. intros a ->. exact Hk.
Qed.

Lemma runs_start ds ps lab p : yields_only p -> runs ds ps [] glet_ok (start lab p).
Proof.
  intros Hy. unfold start. rewrite <- (app_nil_r []).
  eapply runs_bind; [apply runs_log|]. intros _ _. apply runs_run_segment, Hy.
Qed.

Lemma runs_wait_for_runners ds ps rs :
  Forall (fun lg => glet_ok (snd lg)) rs ->
  runs ds ps [] (fun _ => True) (wait_for_runners rs).
Proof.
  induction rs as [|[lab [k|]] rs IH]; intros Hf; cbn [wait_for_runners].
  - eapply runs_weaken; [apply runs_ret|]. auto.
  - inversion Hf as [|? ? Hk Hrs]; subst. rewrite <- (app_nil_r []).
    eapply runs_bind; [apply runs_run_segment, Hk|]. intros g _.
    rewrite <- (app_nil_r []). eapply runs_bind; [apply IH, Hrs|]. intros rest _.
    eapply runs_weaken; [apply runs_ret|]. auto.
  - inversion Hf; subst. apply IH; assumption.
Qed.

Lemma runs_start_step_runners ds ps st ds' :
  Forall (fun hd => yields_only (on_host st (fst hd))) ds' ->
  runs ds ps [] (Forall (fun lg => glet_ok (snd lg))) (start_step_runners st ds').
Proof.
  induction ds' as [|[h d] ds' IH]; intros Hf; cbn [start_step_runners].
  - eapply runs_weaken; [apply runs_ret|]. intros a ->. constructor.
  - inversion Hf as [|? ? Hh Hrest]; subst. rewrite <- (app_nil_r []).
    eapply runs_bind; [apply runs_start, Hh|]. intros g Hg.
    rewrite <- (app_nil_r []). eapply runs_bind; [apply IH, Hrest|]. intros rest Hr.
    eapply runs_weaken; [apply runs_ret|]. intros a ->. constructor; assumption.
Qed.

Lemma runs_start_post_runners_init ds ps ds' :
  Forall (fun hd => yields_only (_install_puppet (snd hd))) ds' ->
  runs ds ps [] (Forall (fun lg => glet_ok (snd lg))) (start_post_runners "init" ds').
Proof.
  induction ds' as [|[h d] ds' IH]; intros Hf; cbn [start_post_runners].
  - eapply runs_weaken; [apply runs_ret|]. intros a ->. constructor.
  - inversion Hf as [|? ? Hh Hrest]; subst. cbn [String.eqb Ascii.eqb Bool.eqb].
    rewrite <- (app_nil_r []).
    eapply runs_bind; [apply runs_start, Hh|]. intros g Hg.
    rewrite <- (app_nil_r []). eapply runs_bind; [apply IH, Hrest|]. intros rest Hr.
    eapply runs_weaken; [apply runs_ret|]. intros a ->. constructor; assumption.
Qed.

Lemma runs_bind_eq ds ps l l1 l2 {A B} (P : A -> Prop) (Q : B -> Prop) (c : M A) (k : A -> M B) :
  runs ds ps l1 P c -> (forall a, P a -> runs ds ps l2 Q (k a)) -> l = l1 ++ l2 ->
  runs ds ps l Q (bind c k).
Proof. intros Hc Hk ->. eapply runs_bind; eassumption. Qed.

Ltac rb := eapply runs_bind_eq; [ | intros ? ? | ].

(** Binding a computation that sends no event. *)
Ltac rb0 :=
  match goal with |- runs _ _ ?L _ _ => rewrite <- (app_nil_l L) end;
  eapply runs_bind; [ | intros ? ? ].

Lemma runs_run_step_init ds ps st :
  Forall (fun hd => yields_only (on_host st (fst hd))) ds ->
  runs ds ps [("step", func_name st, "start"); ("step", func_name st, "end")]
    (fun _ => True) (run_step "init" st).
Proof.
  intros Hy. unfold run_step. cbn [String.eqb Ascii.eqb Bool.eqb].
  rb; [apply runs_status| |reflexivity].
  rb0.
  - rb0; [apply runs_gets_drones|]. cbv beta in *; subst.
    rb0; [apply runs_start_step_runners, Hy|].
    rb0; [apply runs_wait_for_runners; assumption|].
    eapply runs_weaken; [apply runs_ret|]. intros; exact I.
  - apply runs_status.
Qed.

Lemma runs_run_plugin_steps_init ds ps st ps' :
  flat_map init_steps ps' = [st] ->
  Forall (fun hd => yields_only (on_host st (fst hd))) ds ->
  runs ds ps [("step", func_name st, "start"); ("step", func_name st, "end")]
    (fun _ => True) (run_plugin_steps "init" ps').
Proof.
  intros Hfl Hy.
  assert (Hnil : forall qs, flat_map init_steps qs = [] ->
            runs ds ps [] (fun _ => True) (run_plugin_steps "init" qs)).
  { induction qs as [|q qs IH]; intros Hq; cbn [run_plugin_steps].
    - eapply runs_weaken; [apply runs_ret|]. auto.
    - cbn in Hq. apply app_eq_nil in Hq as [Hq1 Hq2].
      unfold phase_steps; cbn [String.eqb Ascii.eqb Bool.eqb]. rewrite Hq1.
      rb0; [cbn [run_steps]; apply runs_ret|]. apply IH, Hq2. }
  induction ps' as [|q qs IH]; [discriminate|].
  cbn [run_plugin_steps]. unfold phase_steps; cbn [String.eqb Ascii.eqb Bool.eqb].
  cbn [flat_map] in Hfl.
  destruct (init_steps q) as [|st1 [|st2 sts]] eqn:Eq; cbn [app] in Hfl.
  - rb0; [cbn [run_steps]; apply runs_ret|]. apply IH, Hfl.
  - injection Hfl as -> Hrest.
    eapply runs_bind_eq; [| |rewrite app_nil_r; reflexivity].
    + cbn [run_steps]. eapply runs_bind_eq; [apply runs_run_step_init, Hy| |symmetry; apply app_nil_r].
      intros. eapply runs_weaken; [apply runs_ret|]. intros; exact I.
    + intros. apply Hnil, Hrest.
  - discriminate.
Qed.

Lemma runs_run_phase_init ds ps st :
  flat_map init_steps ps = [st] ->
  Forall (fun hd => yields_only (on_host st (fst hd))) ds ->
  Forall (fun hd => yields_only (_install_puppet (snd hd))) ds ->
  runs ds ps [("phase", "init", "start"); ("step", func_name st, "start");
              ("step", func_name st, "end"); ("phase", "init", "end")]
    (fun _ => True) (_run_phase "init").
Proof.
  intros Hfl Hy Hp. unfold _run_phase.
  rb; [apply runs_status| |reflexivity].
  rb0; [apply runs_gets_plugins|]. cbv beta in *; subst.
  rb; [apply runs_run_plugin_steps_init; eassumption| |reflexivity].
  rb0; [apply runs_gets_drones|]. cbv beta in *; subst.
  rb0; [apply runs_start_post_runners_init, Hp|].
  rb0; [apply runs_wait_for_runners; assumption|].
  apply runs_status.
Qed.

(** *** Which events a computation sends *)

Lemma keeps_events_bind {A B} (c : M A) (k : A -> M B) :
  keeps_events c -> (forall a, keeps_events (k a)) -> keeps_events (bind c k).
Proof. intros Hc Hk e0. apply preserves_bind; [apply Hc | intros a; apply Hk]. Qed.

Lemma keeps_events_modify (f : ctrl -> ctrl) :
  (forall s, events (f s) = events s) -> keeps_events (modify f).
Proof. intros Hf e0 s H. cbn. rewrite Hf. exact H. Qed.

Lemma keeps_events_ret {A} (a : A) : keeps_events (ret a).
Proof. intros e0 s H. exact H. Qed.
Lemma keeps_events_raise {A} e : keeps_events (@raise A e).
Proof. intros e0 s H. exact H. Qed.
Lemma keeps_events_gets {A} (f : ctrl -> A) : keeps_events (gets f).
Proof. intros e0 s H. exact H. Qed.
Lemma keeps_events_log l t : keeps_events (log l t).
Proof. intros e0 s H. exact H. Qed.
Lemma keeps_events_lookup_drone h : keeps_events (lookup_drone h).
Proof. intros e0 s H. unfold lookup_drone. destruct (assoc h (drones s)); exact H. Qed.
Lemma keeps_events_get_dependency_map k : keeps_events (get_dependency_map k).
Proof. intros e0 s H. unfold get_dependency_map. destruct (String.eqb k "dependecy"); exact H. Qed.
Lemma keeps_events_set_dependency_map k m : keeps_events (set_dependency_map k m).
Proof. intros e0 s H. unfold set_dependency_map. destruct (String.eqb k "dependecy"); exact H. Qed.
Lemma keeps_events_modify_plan f : keeps_events (modify_plan f).
Proof. apply keeps_events_modify. reflexivity. Qed.

#[local] Hint Resolve keeps_events_ret keeps_events_raise keeps_events_gets keeps_events_log
  keeps_events_lookup_drone keeps_events_get_dependency_map keeps_events_set_dependency_map
  keeps_events_modify_plan : ctrl.

Ltac keep_ev := repeat (apply keeps_events_bind; [|intro]); auto with ctrl.

Lemma keeps_events_run_segment l p : keeps_events (run_segment l p).
Proof. destruct p as [|[|n] k]; unfold run_segment; keep_ev. Qed.
Lemma keeps_events_start l p : keeps_events (start l p).
Proof. unfold start. keep_ev. apply keeps_events_run_segment. Qed.
#[local] Hint Resolve keeps_events_run_segment keeps_events_start : ctrl.

Lemma keeps_events_wait_for_runners rs : keeps_events (wait_for_runners rs).
Proof. induction rs as [|[l [k|]] rs IH]; cbn [wait_for_runners]; keep_ev. Qed.
Lemma keeps_events_start_step_runners st ds : keeps_events (start_step_runners st ds).
Proof. induction ds as [|[h d] ds IH]; cbn [start_step_runners]; keep_ev. Qed.
Lemma keeps_events_start_post_runners phase ds : keeps_events (start_post_runners phase ds).
Proof.
  induction ds as [|[h d] ds IH]; cbn [start_post_runners]; [keep_ev|].
  destruct (String.eqb phase "init"); [keep_ev|].
  destruct (String.eqb phase "plan"); keep_ev.
Qed.
Lemma keeps_events_clean_drones ds : keeps_events (clean_drones ds).
Proof. induction ds as [|[h d] ds IH]; cbn [clean_drones]; [keep_ev|]. destruct (clean d); keep_ev. Qed.
Lemma keeps_events_add_record r : keeps_events (add_record r).
Proof.
  destruct r as [[[h mf] mk] pr]. unfold add_record. keep_ev.
  apply keeps_events_modify. reflexivity.
Qed.
Lemma keeps_events_run_plan_step st : keeps_events (run_plan_step st).
Proof.
  unfold run_plan_step. destruct (plan_ret st) as [n|recs]; [keep_ev|].
  generalize (default [] recs). intros rs.
  induction rs as [|r rs IH]; cbn [add_records]; keep_ev. apply keeps_events_add_record.
Qed.
#[local] Hint Resolve keeps_events_wait_for_runners keeps_events_start_step_runners
  keeps_events_start_post_runners keeps_events_clean_drones keeps_events_run_plan_step : ctrl.

Lemma emits_bind {A B} Q (c : M A) (k : A -> M B) :
  emits_only Q c -> (forall a, emits_only Q (k a)) -> emits_only Q (bind c k).
Proof.
  intros Hc Hk s. unfold bind. destruct (Hc s) as [l1 [E1 F1]].
  destruct (c s) as [a s'|e s'|s']; cbn in *; [|exists l1; auto|exists l1; auto].
  destruct (Hk a s') as [l2 [E2 F2]]. exists (l1 ++ l2).
  rewrite E2, E1, app_assoc. split; [reflexivity|]. apply Forall_app; auto.
Qed.

Lemma emits_keeps {A} Q (c : M A) : keeps_events c -> emits_only Q c.
Proof. intros H s. exists []. rewrite app_nil_r. split; [|constructor]. exact (H (events s) s eq_refl). Qed.

Lemma emits_status (Q : event -> Prop) ut un us : Q (ut, un, us) -> emits_only Q (status ut un us).
Proof.
  intros HQ s. unfold status. destruct (status_cb s); cbn.
  - exists [(ut, un, us)]. split; [reflexivity|]. constructor; [exact HQ|constructor].
  - exists []. rewrite app_nil_r. split; [reflexivity|constructor].
Qed.

Ltac emit :=
  repeat (apply emits_bind; [|intro]);
  try solve [apply emits_status; unfold phase_event; cbn; tauto | apply emits_keeps; keep_ev].

Lemma run_phase_emits phase : emits_only (phase_event phase) (_run_phase phase).
Proof.
  unfold _run_phase. emit.
  match goal with |- emits_only _ (run_plugin_steps _ ?ps) => induction ps as [|p ps IH] end;
    cbn [run_plugin_steps]; [emit|].
  destruct (phase_steps phase p) as [sts|]; [|emit].
  apply emits_bind; [|intros; exact IH].
  induction sts as [|st sts IHs]; cbn [run_steps]; [emit|].
  apply emits_bind; [|intros; exact IHs].
  unfold run_step. emit. destruct (String.eqb phase "plan"); emit.
Qed.

(** *** Outcomes of run_deployment and run_cleanup *)

Lemma run_deployment_outcomes (fuel : nat) (s : ctrl) :
  (status_cb s = false /\ run_deployment fuel s = Err (KeyError "status") s) \/
  (status_cb s = true /\
   let s1 := with_events s (events s ++ [("phase", "deployment", "start")]) in
   ((waiting (plan s) = ∅ /\ in_progress (plan s) = ∅ /\
     run_deployment fuel s = Ok tt (with_events s1 (events s1 ++ [("phase", "deployment", "end")]))) \/
    run_deployment fuel s = OutOfFuel s1 \/
    run_deployment fuel s = Err (ValueError "unpack") s1 \/
    run_deployment fuel s = Err (KeyError "dependency") s1)).
Proof.
  unfold run_deployment, bind.
  destruct (status_cb s) eqn:Hcb.
  - right. split; [reflexivity|]. cbv zeta.
    set (s1 := with_events s (events s ++ [("phase", "deployment", "start")])).
    assert (Hs : status "phase" "deployment" "start" s = Ok tt s1)
      by (unfold status; rewrite Hcb; reflexivity).
    rewrite Hs.
    destruct (deploy_loop_stalls fuel [] s1) as [[Hw [Hi E]]|[E|[E|E]]]; rewrite E.
    + left. split; [exact Hw|split; [exact Hi|]]. unfold status. cbn. rewrite Hcb. reflexivity.
    + right; left; reflexivity.
    + right; right; left; reflexivity.
    + right; right; right; reflexivity.
  - left. split; [reflexivity|].
    assert (Hs : status "phase" "deployment" "start" s = Err (KeyError "status") s)
      by (unfold status; rewrite Hcb; reflexivity).
    rewrite Hs. reflexivity.
Qed.

Lemma run_deployment_state (fuel : nat) (s : ctrl) :
  plan (state_of (run_deployment fuel s)) = plan s /\
  trace (state_of (run_deployment fuel s)) = trace s.
Proof.
  destruct (run_deployment_outcomes fuel s) as [[_ E]|[_ [[_ [_ E]]|[E|[E|E]]]]];
    rewrite E; split; reflexivity.
Qed.

Lemma scan_deps (keys : list string) (rm : runners_map) (s : ctrl) (dm : gmap string (gset string)) :
  scan keys rm (with_deps s dm) = res_with_deps dm (scan keys rm s).
Proof.
  induction keys as [|k keys IH]; [reflexivity|].
  rewrite !scan_cons_eq. destruct (unpack2 k) as [[m mfs]|]; [|reflexivity].
  change (finished (plan (with_deps s dm))) with (finished (plan s)).
  destruct (decide (m ∈ finished (plan s))); [exact IH|reflexivity].
Qed.

Lemma deploy_loop_deps (fuel : nat) (rm : runners_map) (s : ctrl) (dm : gmap string (gset string)) :
  deploy_loop fuel rm (with_deps s dm) = res_with_deps dm (deploy_loop fuel rm s).
Proof.
  revert rm s. induction fuel as [|f IH]; intros rm s; rewrite !deploy_loop_eq;
    change (plan (with_deps s dm)) with
      (mkPlan (manifests (plan s)) dm (waiting (plan s)) (in_progress (plan s)) (finished (plan s)));
    cbn [waiting in_progress manifests];
    (destruct (bool_decide _); [reflexivity|]); [reflexivity|].
  unfold bind. rewrite scan_deps.
  destruct (scan (map fst (manifests (plan s))) rm s); cbn [res_with_deps]; [apply IH|reflexivity|reflexivity].
Qed.

(** [run_deployment] reads nothing of the prerequisite map. *)
Lemma run_deployment_deps (fuel : nat) (s : ctrl) (dm : gmap string (gset string)) :
  run_deployment fuel (with_deps s dm) = res_with_deps dm (run_deployment fuel s).
Proof.
  unfold run_deployment, bind, status.
  change (status_cb (with_deps s dm)) with (status_cb s).
  destruct (status_cb s) eqn:Hcb; [|reflexivity].
  change (with_events (with_deps s dm) (events (with_deps s dm) ++ [("phase", "deployment", "start")]))
    with (with_deps (with_events s (events s ++ [("phase", "deployment", "start")])) dm).
  rewrite deploy_loop_deps.
  destruct (deploy_loop fuel [] _); cbn [res_with_deps]; [|reflexivity|reflexivity].
  change (status_cb (with_deps s0 dm)) with (status_cb s0).
  destruct (status_cb s0); reflexivity.
Qed.

Lemma run_cleanup_controller_eq (s : ctrl) :
  run_cleanup Controller_run_phase s =
  if status_cb s then
    Err (AttributeError "run_phase") (with_events s (events s ++ [("phase", "cleanup", "start")]))
  else Err (KeyError "status") s.
Proof.
  rewrite Controller_run_phase_missing. unfold run_cleanup, bind.
  destruct (status_cb s) eqn:Hcb.
  - assert (Hs : status "phase" "cleanup" "start" s =
                 Ok tt (with_events s (events s ++ [("phase", "cleanup", "start")])))
      by (unfold status; rewrite Hcb; reflexivity).
    rewrite Hs. reflexivity.
  - assert (Hs : status "phase" "cleanup" "start" s = Err (KeyError "status") s)
      by (unfold status; rewrite Hcb; reflexivity).
    rewrite Hs. reflexivity.
Qed.

Lemma run_cleanup_run_phase_events (s s' : ctrl) :
  run_cleanup (Some _run_phase) s = Ok tt s' ->
  exists l, events s' = events s ++ [("phase", "cleanup", "start")] ++ l ++ [("phase", "cleanuo", "end")] /\
            Forall (phase_event "clean") l.
Proof.
  unfold run_cleanup. unfold bind at 1.
  destruct (status_cb s) eqn:Hcb.
  2:{ assert (Hs : status "phase" "cleanup" "start" s = Err (KeyError "status") s)
        by (unfold status; rewrite Hcb; reflexivity).
      rewrite Hs. discriminate. }
  set (s1 := with_events s (events s ++ [("phase", "cleanup", "start")])).
  assert (Hs : status "phase" "cleanup" "start" s = Ok tt s1)
    by (unfold status; rewrite Hcb; reflexivity).
  rewrite Hs.
  destruct (run_phase_emits "clean" s1) as [l [El Fl]].
  unfold bind at 1. destruct (_run_phase "clean" s1) as [[] s2|e s2|s2] eqn:E; cbn in El;
    try discriminate.
  unfold bind at 1, gets. unfold bind.
  pose proof (keeps_events_clean_drones (drones s2) (events s2) s2 eq_refl) as Hc.
  destruct (clean_drones (drones s2) s2) as [[] s3|e s3|s3]; try discriminate.
  cbn in Hc. unfold status. destruct (status_cb s3); [|discriminate].
  intros H. injection H as <-. exists l. split; [|exact Fl].
  cbn. rewrite Hc, El. cbn. rewrite <- !app_assoc. reflexivity.
Qed.

Example st_planned_plan :
  plan st_planned = mkPlan [("markerA", [("host1", "m1")])] ∅ {["markerA"]} ∅ ∅.
Proof. reflexivity. Qed.

(** ** Claims *)

(** C1: markers never move out of [waiting].  With a plan step
    returning [(host1, m1, markerA, None)], the plan phase stops with
    KeyError 'dependency' leaving markerA in [waiting] (the invariant on
    the three sets holds, see [plan_inv_reachable]), and every later
    [run_deployment] leaves the plan as it is, raising ValueError on its
    first scan: markerA never reaches in-progress or finished. *)
Theorem markerA_never_leaves_waiting :
  _run_phase "plan" st_plan = Err (KeyError "dependency") st_planned /\
  waiting (plan st_planned) = {["markerA"]} /\
  in_progress (plan st_planned) = ∅ /\ finished (plan st_planned) = ∅ /\
  (forall fuel, plan (deployed fuel st_planned) = plan st_planned) /\
  (forall fuel, run_deployment (S fuel) st_planned =
     Err (ValueError "unpack")
       (with_events st_planned (events st_planned ++ [("phase", "deployment", "start")]))).
Proof.
  split; [reflexivity|]. split; [reflexivity|]. split; [reflexivity|]. split; [reflexivity|].
  split.
  - intros fuel. apply (run_deployment_state fuel st_planned).
  - intros fuel. reflexivity.
Qed.

(** C2: [run_deployment] moves a marker into in-progress only when all its
    prerequisites are finished, and no deploy task of a marker B starts
    before every deploy task of each prerequisite A of B has finished.
    (It holds because the method, as written, moves no marker and starts
    no task at all.) *)
Theorem deployment_respects_prerequisites (fuel : nat) (s : ctrl) :
  (forall m, m ∈ in_progress (plan (deployed fuel s)) -> m ∉ in_progress (plan s) ->
     default ∅ (dependecy (plan s) !! m) ⊆ finished (plan (deployed fuel s))) /\
  (forall A B h x i, A ∈ default ∅ (dependecy (plan s) !! B) ->
     new_trace s (deployed fuel s) !! i = Some (LDeploy B h x, Started) ->
     forall h' x', In (h', x') (default [] (assoc A (manifests (plan s)))) ->
     exists j, j < i /\ new_trace s (deployed fuel s) !! j = Some (LDeploy A h' x', Finished)).
Proof.
  destruct (run_deployment_state fuel s) as [Hp Ht]. unfold deployed in *.
  split.
  - intros m Hin Hnot. rewrite Hp in Hin. contradiction.
  - intros A B h x i _ Hi. unfold new_trace in Hi. rewrite Ht, drop_all in Hi.
    discriminate.
Qed.

(** C3: a plan record is not fully registered.  The drone gets
    the manifest, the marker enters [waiting] and [manifests], then
    [self._plan['dependency']] raises KeyError: [__init__] created the key
    as 'dependecy', so the prerequisites are never recorded. *)
Theorem plan_record_dependency_keyerror :
  exists s1, _run_phase "plan" st_plan = Err (KeyError "dependency") s1 /\
    added s1 = [("host1", "m1")] /\
    waiting (plan s1) = {["markerA"]} /\
    manifests (plan s1) = [("markerA", [("host1", "m1")])] /\
    dependecy (plan s1) = ∅ /\
    events s1 = [("phase", "plan", "start"); ("step", "plan_sql", "start")].
Proof. eexists. repeat split; reflexivity. Qed.

(** C4: [wait_for_runners] makes a single pass.  A runner that
    hands control back twice is still alive after it returns, and in the
    prep phase step_two starts while step_one has not finished. *)
Theorem wait_for_runners_single_pass :
  wait_for_runners [(LStep "step_one" "host1", Alive [IYield; IYield])] st_prep =
    Ok [(LStep "step_one" "host1", Alive [IYield])] st_prep /\
  exists s', _run_phase "prep" st_prep = Ok tt s' /\
    trace s' = [(LStep "step_one" "host1", Started);
                (LStep "step_two" "host1", Started);
                (LStep "step_two" "host1", Finished)].
Proof. split; [reflexivity|]. eexists. split; reflexivity. Qed.

(** C5 (counterexample): a plan whose markers mA and mB require each
    other is not reported.  The first scan reaches the prerequisite check
    for the first key and raises KeyError('dependency') there; the same plan
    with no prerequisites gives the same outcome for every bound on the
    loop, so the cycle is never detected. *)
Lemma cyclic_plan_not_reported :
  dependecy cyclic_plan !! "mA" = Some {["mB"]} /\
  dependecy cyclic_plan !! "mB" = Some {["mA"]} /\
  run_deployment 1 st_cyclic =
    Err (KeyError "dependency") (with_events st_cyclic [("phase", "deployment", "start")]) /\
  (forall fuel, run_deployment fuel st_cyclic =
     res_with_deps (dependecy cyclic_plan) (run_deployment fuel (with_deps st_cyclic ∅))).
Proof.
  split; [reflexivity|split; [reflexivity|split; [reflexivity|]]].
  intros fuel. rewrite <- run_deployment_deps. reflexivity.
Qed.

(** C5 (amended): [run_deployment] has no cycle or deadlock detection.
    Its outcome does not depend on the prerequisite map of the plan: with
    any map [dm] in its place, it returns, raises or stops exactly as
    before.  The only exceptions it raises are KeyError('status'),
    ValueError from unpacking a key and KeyError('dependency'); none of
    them is a configuration-error report. *)
Theorem run_deployment_ignores_prerequisites (fuel : nat) (s : ctrl) (dm : gmap string (gset string)) :
  run_deployment fuel (with_deps s dm) = res_with_deps dm (run_deployment fuel s) /\
  (forall e s', run_deployment fuel s = Err e s' ->
     e = KeyError "status" \/ e = ValueError "unpack" \/ e = KeyError "dependency").
Proof.
  split; [apply run_deployment_deps|].
  intros e s' E.
  destruct (run_deployment_outcomes fuel s) as [[_ E']|[_ [[_ [_ E']]|[E'|[E'|E']]]]];
    rewrite E' in E; try discriminate E; injection E as <- _; auto.
Qed.

(** C6: when a deploy task of a marker M fails, M is not added to
    [finished] and the failure is what [run_deployment] raises.  (The
    method, as written, starts no deploy task and never changes
    [finished].) *)
Theorem deploy_failure_not_finished (fuel : nat) (s : ctrl) :
  finished (plan (deployed fuel s)) = finished (plan s) /\
  (forall m h x, In (LDeploy m h x, Failed) (new_trace s (deployed fuel s)) ->
     (m ∈ finished (plan (deployed fuel s)) -> m ∈ finished (plan s)) /\
     exists n, run_deployment fuel s = Err (TaskFailure n) (deployed fuel s)).
Proof.
  destruct (run_deployment_state fuel s) as [Hp Ht]. unfold deployed in *.
  split; [rewrite Hp; reflexivity|].
  intros m h x Hin. unfold new_trace in Hin. rewrite Ht, drop_all in Hin. contradiction.
Qed.

(** C7: in an init phase with one registered step and one host, where the
    step and the drone operations return normally, the status callback
    receives exactly phase start, step start, step end, phase end. *)
Theorem init_phase_single_step_events (s : ctrl) (st : Step) (h : string) (d : Drone) :
  status_cb s = true ->
  flat_map init_steps (plugins s) = [st] ->
  drones s = [(h, d)] ->
  yields_only (on_host st h) ->
  yields_only (_install_puppet d) ->
  exists t, _run_phase "init" s =
    Ok tt (with_trace (with_events s (events s ++
      [("phase", "init", "start"); ("step", func_name st, "start");
       ("step", func_name st, "end"); ("phase", "init", "end")])) t).
Proof.
  intros Hcb Hfl Hd Hy Hp.
  assert (Fy : Forall (fun hd => yields_only (on_host st (fst hd))) [(h, d)])
    by (repeat constructor; assumption).
  assert (Fp : Forall (fun hd => yields_only (_install_puppet (snd hd))) [(h, d)])
    by (repeat constructor; assumption).
  destruct (runs_run_phase_init [(h, d)] (plugins s) st Hfl Fy Fp s Hcb Hd eq_refl)
    as ([] & t & E & _).
  exists t. exact E.
Qed.

Lemma init_phase_single_step_events_witness :
  exists t, _run_phase "init" st_init =
    Ok tt (with_trace (with_events st_init
      [("phase", "init", "start"); ("step", "install_db", "start");
       ("step", "install_db", "end"); ("phase", "init", "end")]) t).
Proof.
  apply (init_phase_single_step_events st_init init_step "host1" (drone_ok "host1"));
    [reflexivity|reflexivity|reflexivity|repeat constructor|repeat constructor].
Defined.

(** C8 (counterexample): without a registered status callback,
    [run_cleanup] raises KeyError 'status', not AttributeError. *)
Lemma run_cleanup_without_callback :
  run_cleanup Controller_run_phase st_no_callback = Err (KeyError "status") st_no_callback.
Proof. rewrite run_cleanup_controller_eq. reflexivity. Qed.

(** C8 (amended): [run_init] always raises AttributeError 'run_phase'
    before any phase step; [run_cleanup] raises AttributeError 'run_phase'
    before any phase step once a status callback is registered (after
    sending the cleanup start event), and KeyError 'status' otherwise. *)
Theorem run_init_cleanup_attribute_error (s : ctrl) :
  run_init Controller_run_phase s = Err (AttributeError "run_phase") s /\
  (status_cb s = true -> run_cleanup Controller_run_phase s =
     Err (AttributeError "run_phase") (with_events s (events s ++ [("phase", "cleanup", "start")]))) /\
  (status_cb s = false -> run_cleanup Controller_run_phase s = Err (KeyError "status") s).
Proof.
  split; [rewrite Controller_run_phase_missing; reflexivity|].
  rewrite run_cleanup_controller_eq.
  split; intros Hcb; rewrite Hcb; reflexivity.
Qed.

(** C9: on every plan the controller builds, [run_deployment] raises on its
    first scan when [waiting] is non-empty, with the plan and the greenlet
    trace untouched, and completes only when [waiting] is empty. *)
Theorem run_deployment_fails_unless_empty (fuel : nat) (s : ctrl) :
  status_cb s = true -> plan_inv (plan s) ->
  (waiting (plan s) ≠ ∅ -> exists e,
     run_deployment (S fuel) s =
       Err e (with_events s (events s ++ [("phase", "deployment", "start")])) /\
     (e = ValueError "unpack" \/ e = KeyError "dependency")) /\
  (waiting (plan s) = ∅ -> run_deployment fuel s =
     Ok tt (with_events s (events s ++ [("phase", "deployment", "start");
                                       ("phase", "deployment", "end")]))).
Proof.
  intros Hcb [Hw [Hi Hf]]. split.
  - intros Hne. destruct (set_choose_L _ Hne) as [m Hm].
    apply Hw in Hm.
    destruct (manifests (plan s)) as [|[k v] od] eqn:Em; [contradiction|].
    unfold run_deployment, bind.
    assert (Hs : status "phase" "deployment" "start" s =
                 Ok tt (with_events s (events s ++ [("phase", "deployment", "start")])))
      by (unfold status; rewrite Hcb; reflexivity).
    rewrite Hs, deploy_loop_eq.
    rewrite bool_decide_false by (cbn; intros [Hw0 _]; exact (Hne Hw0)).
    cbn [plan with_events]. rewrite Em. cbn [map fst]. unfold bind at 1. rewrite scan_cons_eq.
    destruct (unpack2 k) as [[m' mfs]|].
    + rewrite decide_False by (cbn; rewrite Hf; set_solver). eexists; split; [reflexivity|right; reflexivity].
    + eexists; split; [reflexivity|left; reflexivity].
  - intros Hw0. unfold run_deployment, bind.
    assert (Hs : status "phase" "deployment" "start" s =
                 Ok tt (with_events s (events s ++ [("phase", "deployment", "start")])))
      by (unfold status; rewrite Hcb; reflexivity).
    rewrite Hs, deploy_loop_done by assumption.
    unfold status. cbn. rewrite Hcb, <- app_assoc. reflexivity.
Qed.

Lemma run_deployment_fails_unless_empty_witness :
  plan_inv (plan st_planned) /\
  exists e, run_deployment 1 st_planned =
    Err e (with_events st_planned (events st_planned ++ [("phase", "deployment", "start")])) /\
    (e = ValueError "unpack" \/ e = KeyError "dependency").
Proof.
  assert (Hinv : plan_inv (plan st_planned)).
  { apply (run_phase_inv "plan" st_plan). split; [intros m; cbn; set_solver|split; reflexivity]. }
  split; [exact Hinv|].
  apply (run_deployment_fails_unless_empty 0 st_planned eq_refl Hinv).
  rewrite st_planned_plan. cbn. set_solver.
Defined.

(** C10: [run_cleanup] sends the start event under 'cleanup' and its end
    event under 'cleanuo'.  On a Controller the method raises before the end
    event; were [self.run_phase] the phase runner, a completed cleanup
    sends start 'cleanup', the 'clean' phase's events, then end 'cleanuo'.
    Either way no end event for 'cleanup' is ever sent. *)
Theorem cleanup_end_event_misnamed :
  (forall s, status_cb s = true -> run_cleanup Controller_run_phase s =
     Err (AttributeError "run_phase") (with_events s (events s ++ [("phase", "cleanup", "start")]))) /\
  (forall s s', run_cleanup (Some _run_phase) s = Ok tt s' ->
     exists l, events s' = events s ++ [("phase", "cleanup", "start")] ++ l ++
                             [("phase", "cleanuo", "end")] /\
               ~ In ("phase", "cleanup", "end") l).
Proof.
  split.
  - intros s Hcb. rewrite run_cleanup_controller_eq, Hcb. reflexivity.
  - intros s s' E. destruct (run_cleanup_run_phase_events s s' E) as [l [El Fl]].
    exists l. split; [exact El|]. intros Hin.
    rewrite List.Forall_forall in Fl. apply Fl in Hin.
    unfold phase_event in Hin. cbn in Hin. destruct Hin as [[_ H]|H]; discriminate.
Qed.

(** ** Further properties *)

(** *** mask_string *)

Lemma prefix_star (w X : string) :
  w <> "" -> no_star w = true -> String.prefix w (String "*" X) = false.
Proof.
  intros Hne Hns. destruct w as [|c w']; [congruence|].
  cbn in Hns |- *. apply andb_prop in Hns as [Hc _].
  destruct (ascii_dec c "*") as [->|]; [discriminate|reflexivity].
Qed.

Lemma contains_star (w X : string) :
  w <> "" -> no_star w = true -> contains w (String "*" X) = contains w X.
Proof. intros Hne Hns. cbn [contains]. rewrite prefix_star by assumption. reflexivity. Qed.

Lemma prefix_mask (w X : string) :
  w <> "" -> no_star w = true -> String.prefix w (String.append STR_MASK X) = false.
Proof. intros. apply prefix_star; assumption. Qed.

Lemma contains_mask (w X : string) :
  w <> "" -> no_star w = true -> contains w (String.append STR_MASK X) = contains w X.
Proof.
  intros Hne Hns. cbv [STR_MASK String.append].
  rewrite !(contains_star w) by assumption. reflexivity.
Qed.

Lemma contains_empty (w : string) : w <> "" -> contains w "" = false.
Proof. destruct w; [congruence|reflexivity]. Qed.

Lemma contains_cons (w s : string) (c : ascii) :
  contains w s = true -> contains w (String c s) = true.
Proof. intros H. cbn [contains]. rewrite H, orb_true_r. reflexivity. Qed.

Lemma contains_of_prefix (w s : string) : String.prefix w s = true -> contains w s = true.
Proof. destruct s; cbn [contains]; intros ->; reflexivity. Qed.

Lemma contains_sdrop (w s : string) (n : nat) :
  contains w (sdrop n s) = true -> contains w s = true.
Proof.
  revert s. induction n as [|n IH]; intros s H; [exact H|].
  destruct s as [|c s']; [exact H|]. apply contains_cons, IH, H.
Qed.

(** A prefix of [String c X] with no '*' that [X] only changes by masks. *)
Lemma prefix_cons_inv (w X Y : string) (c : ascii) :
  no_star w = true ->
  (forall w', w' <> "" -> no_star w' = true -> String.prefix w' X = true -> String.prefix w' Y = true) ->
  String.prefix w (String c X) = true -> String.prefix w (String c Y) = true.
Proof.
  intros Hns HXY H. destruct w as [|a w']; [reflexivity|].
  cbn in H, Hns |- *. destruct (ascii_dec a c); [|discriminate].
  apply andb_prop in Hns as [_ Hns'].
  destruct w' as [|b w'']; [destruct Y; reflexivity|].
  apply HXY; [discriminate|assumption|assumption].
Qed.

Lemma prefix_replace_from (f : nat) (old s w : string) :
  w <> "" -> no_star w = true ->
  String.prefix w (replace_from f old STR_MASK s) = true -> String.prefix w s = true.
Proof.
  revert s w. induction f as [|f IH]; intros s w Hne Hns H; [exact H|].
  destruct s as [|c s']; [exact H|]. cbn [replace_from] in H.
  destruct (String.prefix old (String c s')).
  - rewrite prefix_mask in H by assumption. discriminate.
  - eapply prefix_cons_inv; [exact Hns| |exact H].
    intros w' Hne' Hns'. apply IH; assumption.
Qed.

Lemma contains_replace_from (f : nat) (old s w : string) :
  w <> "" -> no_star w = true ->
  contains w (replace_from f old STR_MASK s) = true -> contains w s = true.
Proof.
  revert s. induction f as [|f IH]; intros s Hne Hns H; [exact H|].
  destruct s as [|c s']; [exact H|]. cbn [replace_from] in H.
  destruct (String.prefix old (String c s')).
  - rewrite contains_mask in H by assumption.
    eapply contains_sdrop, IH; eassumption.
  - cbn [contains] in H. apply orb_prop in H as [H|H].
    + apply contains_of_prefix. eapply prefix_cons_inv; [exact Hns| |exact H].
      intros w' Hne' Hns'. apply prefix_replace_from; assumption.
    + apply contains_cons, IH; assumption.
Qed.

Lemma contains_replace_empty (s w : string) :
  w <> "" -> no_star w = true ->
  contains w (replace_empty STR_MASK s) = true -> contains w s = true.
Proof.
  intros Hne Hns. induction s as [|c s' IH]; intros H; cbn [replace_empty] in H.
  - change STR_MASK with (String.append STR_MASK "") in H.
    rewrite contains_mask, contains_empty in H by assumption. discriminate.
  - rewrite contains_mask in H by assumption. cbn [contains] in H.
    apply orb_prop in H as [H|H].
    + apply contains_of_prefix. eapply prefix_cons_inv; [exact Hns| |exact H].
      intros w' Hne' Hns' Hp. destruct s' as [|c' s''].
      * cbn [replace_empty] in Hp. change STR_MASK with (String.append STR_MASK "") in Hp.
        rewrite prefix_mask in Hp by assumption. discriminate.
      * cbn [replace_empty] in Hp. rewrite prefix_mask in Hp by assumption. discriminate.
    + apply contains_cons, IH, H.
Qed.

(** Masking with [STR_MASK] creates no occurrence of a word without '*'. *)
Lemma contains_py_replace (old s w : string) :
  w <> "" -> no_star w = true ->
  contains w (py_replace old STR_MASK s) = true -> contains w s = true.
Proof.
  intros Hne Hns. unfold py_replace. destruct old.
  - apply contains_replace_empty; assumption.
  - apply contains_replace_from; assumption.
Qed.

Lemma sdrop_length (n : nat) (s : string) :
  String.length (sdrop n s) = String.length s - n.
Proof.
  revert s. induction n as [|n IH]; intros s; [cbn; lia|].
  destruct s as [|c s']; [reflexivity|]. cbn [sdrop String.length]. rewrite IH. lia.
Qed.

Lemma replace_from_removes (f : nat) (w s : string) :
  String.length s <= f -> w <> "" -> no_star w = true ->
  contains w (replace_from f w STR_MASK s) = false.
Proof.
  revert s. induction f as [|f IH]; intros s Hl Hne Hns.
  - destruct s; [apply contains_empty, Hne|cbn in Hl; lia].
  - destruct s as [|c s']; [apply contains_empty, Hne|]. cbn [replace_from].
    destruct (String.prefix w (String c s')) eqn:Hp.
    + rewrite contains_mask by assumption. apply IH; [|assumption|assumption].
      rewrite sdrop_length. destruct w; [congruence|]. cbn [String.length] in *. lia.
    + cbn [contains]. rewrite IH by (cbn in Hl; lia || assumption).
      rewrite orb_false_r.
      destruct (String.prefix w (String c (replace_from f w STR_MASK s'))) eqn:Hq; [|reflexivity].
      rewrite <- Hp. symmetry. eapply prefix_cons_inv; [exact Hns| |exact Hq].
      intros w' Hne' Hns'. apply prefix_replace_from; assumption.
Qed.

Lemma py_replace_removes (w s : string) :
  w <> "" -> no_star w = true -> contains w (py_replace w STR_MASK s) = false.
Proof.
  intros Hne Hns. unfold py_replace. destruct w as [|c w']; [congruence|].
  apply replace_from_removes; [lia|assumption|assumption].
Qed.

Lemma mask_loop_absent (w m : string) (ml : list string) (rl : list (string * string)) :
  w <> "" -> no_star w = true -> contains w m = false -> contains w (mask_loop m ml rl) = false.
Proof.
  revert m. induction ml as [|word ml IH]; intros m Hne Hns Hm; [exact Hm|].
  cbn [mask_loop]. destruct (String.eqb word ""); apply IH; try assumption.
  destruct (contains w (py_replace (apply_replacements word rl) STR_MASK m)) eqn:E; [|reflexivity].
  apply contains_py_replace in E; [congruence|assumption|assumption].
Qed.

Lemma replace_from_absent (f : nat) (old new s : string) :
  contains old s = false -> replace_from f old new s = s.
Proof.
  revert s. induction f as [|f IH]; intros s H; [reflexivity|].
  destruct s as [|c s']; [reflexivity|]. cbn [replace_from].
  cbn [contains] in H. apply orb_false_elim in H as [Hp Hs].
  rewrite Hp, IH by exact Hs. reflexivity.
Qed.

Lemma py_replace_absent (old new s : string) :
  contains old s = false -> py_replace old new s = s.
Proof.
  intros H. unfold py_replace. destruct old as [|c o].
  - destruct s; discriminate.
  - apply replace_from_absent, H.
Qed.

(** *** sql.py *)

Lemma substring_length_8 (h : string) : 8 <= String.length h -> String.length (substring 0 8 h) = 8.
Proof.
  intros Hl. do 8 (destruct h as [|? h]; [cbn in Hl; lia|]). destruct h; reflexivity.
Qed.

Lemma string_length_append (a b : string) :
  String.length (String.append a b) = String.length a + String.length b.
Proof.
  induction a as [|c a IH]; [reflexivity|].
  change (String.append (String c a) b) with (String c (String.append a b)).
  cbn [String.length]. rewrite IH. reflexivity.
Qed.

Lemma mask_loop_hides (w : string) (rl : list (string * string)) (ml : list string) (m : string) :
  In w ml -> w <> "" ->
  apply_replacements w rl <> "" -> no_star (apply_replacements w rl) = true ->
  contains (apply_replacements w rl) (mask_loop m ml rl) = false.
Proof.
  revert m. induction ml as [|word ml IH]; intros m Hin Hne Hne' Hns; [destruct Hin|].
  cbn [mask_loop]. destruct Hin as [->|Hin].
  - rewrite (proj2 (String.eqb_neq w "") Hne).
    apply mask_loop_absent; [assumption|assumption|]. apply py_replace_removes; assumption.
  - destruct (String.eqb word ""); apply IH; assumption.
Qed.

(** *** The registration loop of Controller.__init__ *)

Lemma register_items_eq (drone attr : string) (items : list string) :
  register_items drone attr items = match items with [] => None | _ => str_getattr attr end.
Proof.
  induction items as [|x items IH]; [reflexivity|]. cbn [register_items].
  destruct (str_getattr attr); [reflexivity|]. rewrite IH. destruct items; reflexivity.
Qed.

Lemma str_getattr_add_resource : str_getattr "add_resource" = Some (AttributeError "add_resource").
Proof. reflexivity. Qed.

Lemma str_getattr_add_module : str_getattr "add_module" = Some (AttributeError "add_module").
Proof. reflexivity. Qed.

Lemma register_hosts_eq (plug : PluginData) (hosts : list string) :
  register_hosts plug hosts =
  match hosts with
  | [] => None
  | _ => match resources plug, modules plug with
         | [], [] => None
         | [], _ => Some (AttributeError "add_module")
         | _, _ => Some (AttributeError "add_resource")
         end
  end.
Proof.
  induction hosts as [|h hosts IH]; [reflexivity|]. cbn [register_hosts].
  rewrite !register_items_eq, str_getattr_add_resource, str_getattr_add_module.
  destruct (resources plug); [|reflexivity]. destruct (modules plug); [|reflexivity].
  rewrite IH. destruct hosts; reflexivity.
Qed.

(** Extra: after [mask_string], no masked word occurs in the result, in
    the form the replace list gives it, provided that form is non-empty and
    has no '*' (the character of [STR_MASK]). *)
Theorem mask_string_hides_words (s : string) (ml : option (list string))
    (rl : option (list (string * string))) (w : string) :
  In w (default [] ml) -> w <> "" ->
  apply_replacements w (default [] rl) <> "" ->
  no_star (apply_replacements w (default [] rl)) = true ->
  contains (apply_replacements w (default [] rl)) (mask_string s ml rl) = false.
Proof. intros. unfold mask_string. apply mask_loop_hides; assumption. Qed.

Lemma mask_string_hides_words_witness :
  contains "secret" (mask_string "user=admin password=secret" (Some ["secret"]) None) = false.
Proof.
  apply (mask_string_hides_words "user=admin password=secret" (Some ["secret"]) None "secret");
    [left; reflexivity|discriminate|discriminate|reflexivity].
Defined.

(** Extra: [mask_string] returns its input unchanged when none of the
    non-empty words, after the replace list, occurs in it. *)
Theorem mask_string_unchanged (s : string) (ml : option (list string))
    (rl : option (list (string * string))) :
  (forall w, In w (default [] ml) -> w <> "" ->
     contains (apply_replacements w (default [] rl)) s = false) ->
  mask_string s ml rl = s.
Proof.
  unfold mask_string. generalize (default [] rl) as r. generalize (default [] ml) as l.
  intros l r H. induction l as [|word l IH]; [reflexivity|]. cbn [mask_loop].
  destruct (String.eqb_spec word "") as [E|E].
  - apply IH. intros w Hw. apply H. right. exact Hw.
  - rewrite py_replace_absent by (apply H; [left; reflexivity|exact E]).
    apply IH. intros w Hw. apply H. right. exact Hw.
Qed.

Lemma mask_string_unchanged_witness :
  mask_string "user=admin" (Some ["secret"; ""]) (Some [("'", "x")]) = "user=admin".
Proof.
  apply mask_string_unchanged. cbn [default]. intros w [<-|[<-|[]]] Hne;
    [reflexivity|congruence].
Defined.

(** Extra: with a mask list of one non-empty word that the replace list
    turns into '', [mask_string] puts [STR_MASK] before every character of
    the text and at its end: a text of n characters becomes one of 9n + 8. *)
Theorem mask_string_empty_replacement (s w : string) (rl : option (list (string * string))) :
  w <> "" -> apply_replacements w (default [] rl) = "" ->
  mask_string s (Some [w]) rl =
    fold_right (fun c acc => String.append STR_MASK (String c acc)) STR_MASK (list_ascii_of_string s) /\
  String.length (mask_string s (Some [w]) rl) = 9 * String.length s + 8.
Proof.
  intros Hne Hw. unfold mask_string. change (default [] (Some [w])) with [w]. cbn [mask_loop].
  rewrite (proj2 (String.eqb_neq w "") Hne), Hw. cbn [py_replace].
  induction s as [|c s [IH1 IH2]]; [split; reflexivity|].
  cbn [replace_empty list_ascii_of_string fold_right]. rewrite IH1. split; [reflexivity|].
  rewrite string_length_append. cbn [String.length]. rewrite <- IH1, IH2. cbn. lia.
Qed.

Lemma mask_string_empty_replacement_witness :
  mask_string "ab" (Some ["q"]) (Some [("q", "")]) = "********a********b********" /\
  String.length (mask_string "ab" (Some ["q"]) (Some [("q", "")])) = 26.
Proof.
  destruct (mask_string_empty_replacement "ab" "q" (Some [("q", "")])) as [H1 H2];
    [discriminate|reflexivity|].
  split; [rewrite H1; reflexivity|rewrite H2; reflexivity].
Defined.

(** Extra: a password [password_processor] returns passes
    [length_validator] exactly when the given value was empty or had at
    least 8 characters; an empty value is replaced by the first 8 characters
    of the uuid's 32 hex digits. *)
Theorem password_processor_validates (uuid_hex value : string) :
  String.length uuid_hex = 32 ->
  (length_validator (password_processor uuid_hex value) = None <->
     value = "" \/ 8 <= String.length value) /\
  (value = "" -> password_processor uuid_hex value = substring 0 8 uuid_hex /\
                 String.length (password_processor uuid_hex value) = 8).
Proof.
  intros Hl. unfold password_processor.
  destruct (String.eqb_spec value "") as [->|Hne].
  - assert (H8 : String.length (substring 0 8 uuid_hex) = 8) by (apply substring_length_8; lia).
    unfold length_validator. rewrite H8. cbn. split; [split; auto|auto].
  - unfold length_validator. split; [|intros; contradiction].
    destruct (Nat.ltb_spec (String.length value) 8) as [Hlt|Hge].
    + split; [discriminate|]. intros [H|H]; [contradiction|lia].
    + split; [intros _; right; lia|reflexivity].
Qed.

Lemma password_processor_validates_witness :
  length_validator (password_processor "0123456789abcdef0123456789abcdef" "") = None.
Proof.
  apply (password_processor_validates "0123456789abcdef0123456789abcdef" ""); [reflexivity|].
  left; reflexivity.
Defined.

(** Extra: the resource and module registration loop of
    [Controller.__init__] completes only when there is no host or no
    plugin has a resource or a module; otherwise it raises AttributeError,
    because the loop variable is a host name (a str), not a drone. *)
Theorem register_plugins_attribute_error (ps : list PluginData) (hosts : list string) :
  (register_plugins ps hosts = None <->
     hosts = [] \/ Forall (fun p => resources p = [] /\ modules p = []) ps) /\
  (forall e, register_plugins ps hosts = Some e ->
     e = AttributeError "add_resource" \/ e = AttributeError "add_module").
Proof.
  induction ps as [|p ps [IH1 IH2]]; cbn [register_plugins].
  - split; [split; [intros _; right; constructor|reflexivity]|discriminate].
  - rewrite register_hosts_eq. destruct hosts as [|h hs].
    + split; [|apply IH2]. rewrite IH1. split; intros _; left; reflexivity.
    + destruct (resources p) eqn:Er; destruct (modules p) eqn:Em.
      * rewrite IH1. split; [|apply IH2]. split.
        -- intros [H|H]; [discriminate|right; constructor; auto].
        -- intros [H|H]; [discriminate|]. right. inversion H; assumption.
      * split; [|intros e He; injection He as <-; auto].
        split; [discriminate|]. intros [H|H]; [discriminate|].
        inversion H as [|? ? [_ Hm]]; congruence.
      * split; [|intros e He; injection He as <-; auto].
        split; [discriminate|]. intros [H|H]; [discriminate|].
        inversion H as [|? ? [Hr _]]; congruence.
      * split; [|intros e He; injection He as <-; auto].
        split; [discriminate|]. intros [H|H]; [discriminate|].
        inversion H as [|? ? [Hr _]]; congruence.
Qed.

(** *** Greenlet logs of the phase runner *)

Lemma lg_bind (L : label * tev -> Prop) {A B} (R : A -> Prop) (R' : B -> Prop)
    (c : M A) (k : A -> M B) :
  lg L R c -> (forall a, R a -> lg L R' (k a)) -> lg L R' (bind c k).
Proof.
  intros Hc Hk s. destruct (Hc s) as (Hd & Hp & t1 & Ht1 & F1 & HR). unfold bind.
  destruct (c s) as [a s1|e s1|s1]; cbn [state_of] in *.
  - destruct (Hk a (HR a s1 eq_refl) s1) as (Hd2 & Hp2 & t2 & Ht2 & F2 & HR2).
    split; [congruence|]. split; [congruence|]. exists (t1 ++ t2).
    split; [rewrite Ht2, Ht1, app_assoc; reflexivity|]. split; [apply Forall_app; auto|exact HR2].
  - split; [assumption|]. split; [assumption|]. exists t1. split; [assumption|].
    split; [assumption|discriminate].
  - split; [assumption|]. split; [assumption|]. exists t1. split; [assumption|].
    split; [assumption|discriminate].
Qed.

Lemma lg_weaken (L : label * tev -> Prop) {A} (R R' : A -> Prop) (c : M A) :
  lg L R c -> (forall a, R a -> R' a) -> lg L R' c.
Proof.
  intros H HR s. destruct (H s) as (Hd & Hp & t & Ht & F & HRs).
  repeat split; try assumption. exists t. split; [assumption|]. split; [assumption|].
  intros a s' E. apply HR, (HRs a s' E).
Qed.

(** A computation that leaves the drones, plugins and trace as they are. *)
Lemma lg_leaf (L : label * tev -> Prop) {A} (R : A -> Prop) (c : M A) :
  (forall s, drones (state_of (c s)) = drones s /\ plugins (state_of (c s)) = plugins s /\
             trace (state_of (c s)) = trace s) ->
  (forall s a s', c s = Ok a s' -> R a) -> lg L R c.
Proof.
  intros H HR s. destruct (H s) as (Hd & Hp & Ht). split; [assumption|]. split; [assumption|].
  exists []. rewrite app_nil_r. split; [assumption|]. split; [constructor|]. apply HR.
Qed.

Ltac leaf := apply lg_leaf; [intros ?s; repeat split | intros ?s ?a ?s' ?E].

Lemma lg_ret L {A} (a : A) : lg L (fun x => x = a) (ret a).
Proof. leaf. unfold ret in E. congruence. Qed.

Lemma lg_raise L {A} (R : A -> Prop) e : lg L R (raise e).
Proof. leaf. discriminate. Qed.

Lemma lg_gets L {A} (f : ctrl -> A) : lg L (fun _ => True) (gets f).
Proof. leaf. exact I. Qed.

Lemma lg_status L ut un us : lg L (fun _ => True) (status ut un us).
Proof. leaf; unfold status; destruct (status_cb s); reflexivity || exact I. Qed.

Lemma lg_modify_plan L f : lg L (fun _ => True) (modify_plan f).
Proof. leaf. exact I. Qed.

Lemma lg_lookup_drone L h : lg L (fun _ => True) (lookup_drone h).
Proof. leaf; unfold lookup_drone; destruct (assoc h (drones s)); reflexivity || exact I. Qed.

Lemma lg_get_dependency_map L k : lg L (fun _ => True) (get_dependency_map k).
Proof. leaf; unfold get_dependency_map; destruct (String.eqb k "dependecy"); reflexivity || exact I. Qed.

Lemma lg_set_dependency_map L k m : lg L (fun _ => True) (set_dependency_map k m).
Proof. leaf; unfold set_dependency_map; destruct (String.eqb k "dependecy"); reflexivity || exact I. Qed.

Lemma lg_add_record L r : lg L (fun _ => True) (add_record r).
Proof.
  destruct r as [[[h m] mk] pr]. unfold add_record.
  eapply lg_bind; [apply lg_lookup_drone|intros _ _].
  eapply lg_bind; [leaf; exact I|intros _ _].
  eapply lg_bind; [apply lg_modify_plan|intros _ _].
  eapply lg_bind; [apply lg_modify_plan|intros _ _].
  eapply lg_bind; [apply lg_get_dependency_map|intros dm _].
  apply lg_set_dependency_map.
Qed.

Lemma lg_run_plan_step L st : lg L (fun _ => True) (run_plan_step st).
Proof.
  unfold run_plan_step. destruct (plan_ret st) as [n|recs]; [apply lg_raise|].
  induction (default [] recs) as [|r rs IH]; cbn [add_records].
  - eapply lg_weaken; [apply lg_ret|]. auto.
  - eapply lg_bind; [apply lg_add_record|]. intros _ _. exact IH.
Qed.

Lemma lg_log (L : label * tev -> Prop) l t : L (l, t) -> lg L (fun _ => True) (log l t).
Proof.
  intros HL s. cbn. split; [reflexivity|]. split; [reflexivity|].
  exists [(l, t)]. split; [reflexivity|]. split; [repeat constructor; exact HL|]. intros; exact I.
Qed.

Lemma lg_run_segment (L : label * tev -> Prop) l p :
  L (l, Finished) -> L (l, Failed) -> lg L (fun _ => True) (run_segment l p).
Proof.
  intros HF HX. destruct p as [|[|n] k]; unfold run_segment.
  - eapply lg_bind; [apply lg_log, HF|]. intros _ _. eapply lg_weaken; [apply lg_ret|]. auto.
  - eapply lg_weaken; [apply lg_ret|]. auto.
  - eapply lg_bind; [apply lg_log, HX|]. intros _ _. apply lg_raise.
Qed.

Lemma lg_start (L : label * tev -> Prop) l p :
  (forall t, L (l, t)) -> lg L (fun _ => True) (start l p).
Proof.
  intros HL. unfold start. eapply lg_bind; [apply lg_log, HL|]. intros _ _.
  apply lg_run_segment; apply HL.
Qed.

Lemma lg_wait_for_runners (L : label * tev -> Prop) rs :
  Forall (fun x => forall t, L (fst x, t)) rs -> lg L (fun _ => True) (wait_for_runners rs).
Proof.
  induction rs as [|[l [k|]] rs IH]; intros HF; cbn [wait_for_runners].
  - eapply lg_weaken; [apply lg_ret|]. auto.
  - inversion HF as [|? ? Hl Hrs]; subst.
    eapply lg_bind; [apply lg_run_segment; apply Hl|]. intros g _.
    eapply lg_bind; [apply IH, Hrs|]. intros rest _.
    eapply lg_weaken; [apply lg_ret|]. auto.
  - inversion HF; subst. apply IH; assumption.
Qed.

Lemma lg_start_step_runners st ds :
  lg step_entry (Forall (fun x => forall t, step_entry (fst x, t))) (start_step_runners st ds).
Proof.
  induction ds as [|[h d] ds IH]; cbn [start_step_runners].
  - eapply lg_weaken; [apply lg_ret|]. intros a ->. constructor.
  - eapply lg_bind; [apply lg_start; intros t; exact I|]. intros g _.
    eapply lg_bind; [apply IH|]. intros rest Hr.
    eapply lg_weaken; [apply lg_ret|]. intros a ->. constructor; [intros t; exact I|exact Hr].
Qed.

Lemma lg_run_step phase st : lg step_entry (fun _ => True) (run_step phase st).
Proof.
  unfold run_step. eapply lg_bind; [apply lg_status|]. intros _ _.
  eapply lg_bind; [|intros _ _; apply lg_status].
  destruct (String.eqb phase "plan"); [apply lg_run_plan_step|].
  eapply lg_bind; [apply lg_gets|]. intros ds _.
  eapply lg_bind; [apply lg_start_step_runners|]. intros rs Hrs.
  eapply lg_bind; [apply lg_wait_for_runners, Hrs|]. intros _ _.
  eapply lg_weaken; [apply lg_ret|]. auto.
Qed.

Lemma lg_run_steps phase sts : lg step_entry (fun _ => True) (run_steps phase sts).
Proof.
  induction sts as [|st sts IH]; cbn [run_steps].
  - eapply lg_weaken; [apply lg_ret|]. auto.
  - eapply lg_bind; [apply lg_run_step|]. intros _ _. exact IH.
Qed.

(** The steps of any phase start step greenlets only. *)
Lemma lg_run_plugin_steps phase ps : lg step_entry (fun _ => True) (run_plugin_steps phase ps).
Proof.
  induction ps as [|p ps IH]; cbn [run_plugin_steps].
  - eapply lg_weaken; [apply lg_ret|]. auto.
  - destruct (phase_steps phase p); [|apply lg_raise].
    eapply lg_bind; [apply lg_run_steps|]. intros _ _. exact IH.
Qed.

Lemma start_post_runners_other phase ds :
  phase <> "init" -> phase <> "plan" -> start_post_runners phase ds = ret [].
Proof.
  intros Hi Hp. destruct ds as [|[h d] ds]; [reflexivity|]. cbn [start_post_runners].
  rewrite (proj2 (String.eqb_neq _ _) Hi), (proj2 (String.eqb_neq _ _) Hp). reflexivity.
Qed.

(** *** Normal returns log no failure *)

Lemma ok_logs_bind (Q : label * tev -> Prop) {A B} (c : M A) (k : A -> M B) :
  ok_logs Q c -> (forall a, ok_logs Q (k a)) -> ok_logs Q (bind c k).
Proof.
  intros Hc Hk s b s' E. unfold bind in E.
  destruct (c s) as [a s1|e s1|s1] eqn:Ec; try discriminate.
  destruct (Hc s a s1 Ec) as (t1 & Ht1 & F1). destruct (Hk a s1 b s' E) as (t2 & Ht2 & F2).
  exists (t1 ++ t2). split; [rewrite Ht2, Ht1, app_assoc; reflexivity|]. apply Forall_app; auto.
Qed.

Lemma ok_logs_of_lg (Q : label * tev -> Prop) {A} (R : A -> Prop) (c : M A) :
  lg Q R c -> ok_logs Q c.
Proof.
  intros H s a s' E. destruct (H s) as (_ & _ & t & Ht & F & _). rewrite E in Ht. eauto.
Qed.

Lemma ok_logs_run_segment l p : ok_logs not_failed (run_segment l p).
Proof.
  intros s a s' E. destruct p as [|[|n] k]; cbn in E.
  - injection E as _ <-. exists [(l, Finished)]. split; [reflexivity|].
    repeat constructor. discriminate.
  - injection E as _ <-. exists []. rewrite app_nil_r. split; [reflexivity|constructor].
  - discriminate.
Qed.

Lemma ok_logs_start l p : ok_logs not_failed (start l p).
Proof.
  unfold start. apply ok_logs_bind; [|intros; apply ok_logs_run_segment].
  eapply ok_logs_of_lg, lg_log. discriminate.
Qed.

Lemma ok_logs_wait_for_runners rs : ok_logs not_failed (wait_for_runners rs).
Proof.
  induction rs as [|[l [k|]] rs IH]; cbn [wait_for_runners].
  - eapply ok_logs_of_lg, lg_ret.
  - apply ok_logs_bind; [apply ok_logs_run_segment|]. intros g.
    apply ok_logs_bind; [exact IH|]. intros rest. eapply ok_logs_of_lg, lg_ret.
  - exact IH.
Qed.

Lemma ok_logs_start_step_runners st ds : ok_logs not_failed (start_step_runners st ds).
Proof.
  induction ds as [|[h d] ds IH]; cbn [start_step_runners].
  - eapply ok_logs_of_lg, lg_ret.
  - apply ok_logs_bind; [apply ok_logs_start|]. intros g.
    apply ok_logs_bind; [exact IH|]. intros rest. eapply ok_logs_of_lg, lg_ret.
Qed.

Lemma ok_logs_start_post_runners phase ds : ok_logs not_failed (start_post_runners phase ds).
Proof.
  induction ds as [|[h d] ds IH]; cbn [start_post_runners].
  - eapply ok_logs_of_lg, lg_ret.
  - destruct (String.eqb phase "init"); [|destruct (String.eqb phase "plan")];
      try (eapply ok_logs_of_lg, lg_ret);
      (apply ok_logs_bind; [apply ok_logs_start|]; intros g;
       apply ok_logs_bind; [exact IH|]; intros rest; eapply ok_logs_of_lg, lg_ret).
Qed.

Lemma ok_logs_run_step phase st : ok_logs not_failed (run_step phase st).
Proof.
  unfold run_step. apply ok_logs_bind; [eapply ok_logs_of_lg, lg_status|]. intros _.
  apply ok_logs_bind; [|intros _; eapply ok_logs_of_lg, lg_status].
  destruct (String.eqb phase "plan"); [eapply ok_logs_of_lg, lg_run_plan_step|].
  apply ok_logs_bind; [eapply ok_logs_of_lg, lg_gets|]. intros ds.
  apply ok_logs_bind; [apply ok_logs_start_step_runners|]. intros rs.
  apply ok_logs_bind; [apply ok_logs_wait_for_runners|]. intros _.
  eapply ok_logs_of_lg, lg_ret.
Qed.

Lemma ok_logs_run_plugin_steps phase ps : ok_logs not_failed (run_plugin_steps phase ps).
Proof.
  induction ps as [|p ps IH]; cbn [run_plugin_steps].
  - eapply ok_logs_of_lg, lg_ret.
  - destruct (phase_steps phase p) as [sts|]; [|apply (ok_logs_of_lg _ (fun _ => True)), lg_raise].
    apply ok_logs_bind; [|intros; exact IH].
    induction sts as [|st sts IHs]; cbn [run_steps]; [eapply ok_logs_of_lg, lg_ret|].
    apply ok_logs_bind; [apply ok_logs_run_step|intros; exact IHs].
Qed.

(** *** Passes of wait_for_runners *)

Lemma wait_pass (rs : list (label * glet)) (s : ctrl) :
  Forall (fun x => glet_ok (snd x)) rs -> exists s', wait_for_runners rs s = Ok (pass rs) s'.
Proof.
  revert s. induction rs as [|[l [k|]] rs IH]; intros s HF.
  - exists s. reflexivity.
  - inversion HF as [|? ? Hk Hrs]; subst. cbn [glet_ok snd] in Hk.
    cbn [wait_for_runners]. unfold bind at 1.
    destruct k as [|i k].
    + cbn [run_segment]. unfold bind at 1. cbn [log modify ret].
      destruct (IH (with_trace s (trace s ++ [(l, Finished)])) Hrs) as [s' E].
      exists s'. unfold bind. rewrite E. reflexivity.
    + inversion Hk as [|? ? Hi Hk']; subst. cbn [run_segment ret].
      destruct (IH s Hrs) as [s' E]. exists s'. unfold bind. rewrite E. reflexivity.
  - inversion HF; subst. cbn [wait_for_runners]. apply IH. assumption.
Qed.

Lemma pass_ok (rs : list (label * glet)) :
  Forall (fun x => glet_ok (snd x)) rs -> Forall (fun x => glet_ok (snd x)) (pass rs).
Proof.
  induction rs as [|[l g] rs IH]; intros HF; [constructor|].
  inversion HF as [|? ? Hg Hrs]; subst. unfold pass. cbn [flat_map]. fold (pass rs).
  apply Forall_app. split; [|apply IH, Hrs].
  destruct g as [[|i k]|]; cbn [adv]; repeat constructor.
  cbn [glet_ok snd] in Hg |- *. inversion Hg; assumption.
Qed.

Lemma pass_max (rs : list (label * glet)) :
  list_max (map (fun x => passes_needed (snd x)) (pass rs)) =
  list_max (map (fun x => passes_needed (snd x)) rs) - 1.
Proof.
  induction rs as [|[l g] rs IH]; [reflexivity|].
  unfold pass. cbn [flat_map]. fold (pass rs). rewrite map_app, list_max_app, IH.
  cbn [map list_max fold_right snd].
  fold (list_max (map (fun x => passes_needed (snd x)) rs)).
  destruct g as [[|i k]|]; cbn [adv map list_max fold_right passes_needed List.length fst snd];
    generalize (list_max (map (fun x => passes_needed (snd x)) rs)); intros; lia.
Qed.

Lemma empty_iff_max (rs : list (label * glet)) :
  rs = [] <-> list_max (map (fun x => passes_needed (snd x)) rs) = 0.
Proof.
  destruct rs as [|[l g] rs]; [split; reflexivity|]. split; [discriminate|].
  cbn. destruct g; cbn; lia.
Qed.

(** *** Computations that return normally *)

Lemma bind_ok {A B} (c : M A) (k : A -> M B) (s s' : ctrl) (b : B) :
  bind c k s = Ok b s' -> exists a s1, c s = Ok a s1 /\ k a s1 = Ok b s'.
Proof. unfold bind. destruct (c s); intros H; try discriminate. eauto. Qed.

Lemma lg_ok (L : label * tev -> Prop) {A} (R : A -> Prop) (c : M A) (s s' : ctrl) (a : A) :
  lg L R c -> c s = Ok a s' ->
  drones s' = drones s /\ exists t, trace s' = trace s ++ t /\ Forall L t.
Proof.
  intros H E. destruct (H s) as (Hd & _ & t & Ht & F & _). rewrite E in Hd, Ht. eauto.
Qed.

Lemma gets_ok {A} (f : ctrl -> A) (s s' : ctrl) (a : A) : gets f s = Ok a s' -> a = f s /\ s' = s.
Proof. unfold gets. intros H. injection H as <- <-. auto. Qed.

Lemma install_puppet_eq (d : Drone) :
  init_host d = [] -> discover d = [] -> _install_puppet d = IYield :: IYield :: configure d.
Proof. intros Hi Hd. unfold _install_puppet. rewrite Hi, Hd. reflexivity. Qed.

Lemma start_post_runners_init_eq (ds : list (string * Drone)) (s : ctrl) :
  Forall (fun hd => init_host (snd hd) = [] /\ discover (snd hd) = []) ds ->
  start_post_runners "init" ds s =
    Ok (map (fun hd => (LPost (fst hd), Alive (IYield :: configure (snd hd)))) ds)
       (with_trace s (trace s ++ map (fun hd => (LPost (fst hd), Started)) ds)).
Proof.
  revert s. induction ds as [|[h d] ds IH]; intros s HF.
  - destruct s; cbn. rewrite app_nil_r. reflexivity.
  - inversion HF as [|? ? [Hi Hd] Hrs]; subst. cbn [start_post_runners String.eqb Ascii.eqb Bool.eqb].
    unfold bind at 1, start. rewrite install_puppet_eq by assumption.
    cbn [bind log modify run_segment ret].
    unfold bind. rewrite IH by exact Hrs. cbn. rewrite <- app_assoc. reflexivity.
Qed.

Lemma wait_post_init_eq (ds : list (string * Drone)) (s : ctrl) :
  wait_for_runners (map (fun hd => (LPost (fst hd), Alive (IYield :: configure (snd hd)))) ds) s =
    Ok (map (fun hd => (LPost (fst hd), Alive (configure (snd hd)))) ds) s.
Proof.
  induction ds as [|[h d] ds IH]; [reflexivity|].
  cbn [map wait_for_runners]. unfold bind at 1. cbn [run_segment ret fst snd].
  unfold bind. rewrite IH. reflexivity.
Qed.

Lemma status_ok (ut un us : string) (s s' : ctrl) (a : unit) :
  status ut un us s = Ok a s' -> drones s' = drones s /\ trace s' = trace s /\ status_cb s = true.
Proof.
  unfold status. destruct (status_cb s) eqn:Hcb; intros H; [|discriminate].
  injection H as _ <-. auto.
Qed.

(** Extra: runners that only hand off are drained by repeated calls of
    [wait_for_runners], not by one: [n] successive calls leave the set
    empty exactly when [n] reaches, for every runner, its hand-offs left
    plus 2 (1 for a runner already dead). *)
Theorem wait_for_runners_drains_after_passes (rs : list (label * glet)) (n : nat) (s : ctrl) :
  Forall (fun x => glet_ok (snd x)) rs ->
  exists rs' s', wait_n n rs s = Ok rs' s' /\
    (rs' = [] <-> list_max (map (fun x => passes_needed (snd x)) rs) <= n).
Proof.
  intros HF.
  assert (G : forall n rs s, Forall (fun x => glet_ok (snd x)) rs ->
            exists rs' s', wait_n n rs s = Ok rs' s' /\
              list_max (map (fun x => passes_needed (snd x)) rs') =
              list_max (map (fun x => passes_needed (snd x)) rs) - n).
  { clear. induction n as [|n IH]; intros rs s HF.
    - exists rs, s. split; [reflexivity|lia].
    - destruct (wait_pass rs s HF) as [s1 E].
      destruct (IH (pass rs) s1 (pass_ok rs HF)) as (rs' & s' & E' & Hm).
      exists rs', s'. cbn [wait_n]. unfold bind. rewrite E, E'. split; [reflexivity|].
      rewrite Hm, pass_max. lia. }
  destruct (G n rs s HF) as (rs' & s' & E & Hm). exists rs', s'. split; [exact E|].
  rewrite empty_iff_max, Hm. lia.
Qed.

Lemma wait_for_runners_drains_after_passes_witness :
  exists rs' s', wait_n 4 [(LStep "step_one" "host1", Alive [IYield; IYield])] st_prep = Ok rs' s' /\
    (rs' = [] <-> 4 <= 4).
Proof.
  apply (wait_for_runners_drains_after_passes [(LStep "step_one" "host1", Alive [IYield; IYield])] 4 st_prep).
  repeat constructor.
Defined.

(** Extra: a phase that returns normally has logged no failed greenlet:
    an exception of a step or of a post-run greenlet is never swallowed. *)
Theorem run_phase_ok_no_failure (phase : string) (s s' : ctrl) :
  _run_phase phase s = Ok tt s' ->
  exists t, trace s' = trace s ++ t /\ forall l, ~ In (l, Failed) t.
Proof.
  intros E.
  assert (H : ok_logs not_failed (_run_phase phase)).
  { unfold _run_phase.
    apply ok_logs_bind; [eapply ok_logs_of_lg, lg_status|]. intros _.
    apply ok_logs_bind; [eapply ok_logs_of_lg, lg_gets|]. intros ps.
    apply ok_logs_bind; [apply ok_logs_run_plugin_steps|]. intros _.
    apply ok_logs_bind; [eapply ok_logs_of_lg, lg_gets|]. intros ds.
    apply ok_logs_bind; [apply ok_logs_start_post_runners|]. intros rs.
    apply ok_logs_bind; [apply ok_logs_wait_for_runners|]. intros _.
    eapply ok_logs_of_lg, lg_status. }
  destruct (H s tt s' E) as (t & Ht & F). exists t. split; [exact Ht|].
  intros l Hin. rewrite List.Forall_forall in F. apply (F _ Hin). reflexivity.
Qed.

Lemma run_phase_ok_no_failure_witness :
  exists t, trace (state_of (_run_phase "prep" st_prep)) = trace st_prep ++ t /\
    forall l, ~ In (l, Failed) t.
Proof. apply (run_phase_ok_no_failure "prep" st_prep). reflexivity. Defined.

(** Extra: in a phase other than init and plan, every greenlet the phase
    starts is a step runner: the post-run loop breaks at once. *)
Theorem other_phases_step_greenlets_only (phase : string) (s : ctrl) :
  phase <> "init" -> phase <> "plan" ->
  exists t, trace (state_of (_run_phase phase s)) = trace s ++ t /\
    Forall (fun e => is_step_label (fst e)) t.
Proof.
  intros Hi Hp.
  assert (H : lg step_entry (fun _ => True) (_run_phase phase)).
  { unfold _run_phase.
    eapply lg_bind; [apply lg_status|]. intros _ _.
    eapply lg_bind; [apply lg_gets|]. intros ps _.
    eapply lg_bind; [apply lg_run_plugin_steps|]. intros _ _.
    eapply lg_bind; [apply lg_gets|]. intros ds _.
    rewrite start_post_runners_other by assumption.
    eapply lg_bind; [apply lg_ret|]. intros rs ->.
    eapply lg_bind; [apply lg_wait_for_runners; constructor|]. intros _ _.
    apply lg_status. }
  destruct (H s) as (_ & _ & t & Ht & F & _). exists t. split; assumption.
Qed.

Lemma other_phases_step_greenlets_only_witness :
  exists t, trace (state_of (_run_phase "prep" st_prep)) = trace st_prep ++ t /\
    Forall (fun e => is_step_label (fst e)) t.
Proof. apply other_phases_step_greenlets_only; discriminate. Defined.

(** Extra: in the init phase, when [drone.init_host()] and
    [drone.discover()] return without switching, every post-run greenlet
    ([_install_puppet]) is started and left suspended before
    [drone.configure()]: after the phase the trace ends with their starts,
    and none of them has finished. *)
Theorem init_install_puppet_never_finishes (s s' : ctrl) :
  _run_phase "init" s = Ok tt s' ->
  Forall (fun hd => init_host (snd hd) = [] /\ discover (snd hd) = []) (drones s) ->
  exists t, trace s' = trace s ++ t ++ map (fun hd => (LPost (fst hd), Started)) (drones s) /\
    Forall step_entry t /\
    forall h, ~ In (LPost h, Finished) (t ++ map (fun hd => (LPost (fst hd), Started)) (drones s)).
Proof.
  intros E HF. unfold _run_phase in E.
  apply bind_ok in E as (u0 & s0 & E0 & E). apply status_ok in E0 as (Hd0 & Ht0 & _).
  apply bind_ok in E as (ps & s1 & E1 & E). apply gets_ok in E1 as [-> ->].
  apply bind_ok in E as (u2 & s2 & E2 & E).
  apply (lg_ok _ _ _ _ _ _ (lg_run_plugin_steps "init" (plugins s0))) in E2 as (Hd2 & t & Ht2 & Ft).
  apply bind_ok in E as (ds & s3 & E3 & E). apply gets_ok in E3 as [-> ->].
  apply bind_ok in E as (rs & s4 & E4 & E).
  rewrite Hd2, Hd0 in E4. rewrite start_post_runners_init_eq in E4 by exact HF.
  injection E4 as <- <-.
  apply bind_ok in E as (u5 & s5 & E5 & E). rewrite wait_post_init_eq in E5.
  injection E5 as _ <-. apply status_ok in E as (_ & Ht5 & _).
  exists t. split; [|split; [exact Ft|]].
  - rewrite Ht5. cbn [trace with_trace]. rewrite Ht2, Ht0, app_assoc. reflexivity.
  - intros h Hin. apply in_app_or in Hin as [Hin|Hin].
    + rewrite List.Forall_forall in Ft. apply Ft in Hin. exact Hin.
    + apply in_map_iff in Hin as (hd & Heq & _). discriminate.
Qed.

Lemma init_install_puppet_never_finishes_witness :
  exists t, trace (state_of (_run_phase "init" st_init)) =
    trace st_init ++ t ++ [(LPost "host1", Started)] /\
    Forall step_entry t /\ forall h, ~ In (LPost h, Finished) (t ++ [(LPost "host1", Started)]).
Proof.
  apply (init_install_puppet_never_finishes st_init (state_of (_run_phase "init" st_init)));
    [reflexivity|repeat constructor].
Defined.

(** *** Event sequences of a phase *)

Lemma bind_Ok {A B} (c : M A) (k : A -> M B) (s : ctrl) (a : A) (s' : ctrl) :
  c s = Ok a s' -> bind c k s = k a s'.
Proof. intros E. unfold bind. rewrite E. reflexivity. Qed.

Lemma bind_Err {A B} (c : M A) (k : A -> M B) (s : ctrl) (e : exc) (s' : ctrl) :
  c s = Err e s' -> bind c k s = Err e s'.
Proof. intros E. unfold bind. rewrite E. reflexivity. Qed.

Lemma phase_steps_known (phase : string) (p : PluginData) :
  In phase known_phases -> phase_steps phase p = Some (default [] (phase_steps phase p)).
Proof.
  intros Hin. unfold known_phases in Hin.
  destruct Hin as [<-|[<-|[<-|[<-|[]]]]]; reflexivity.
Qed.

Lemma phase_steps_unknown (phase : string) (p : PluginData) :
  ~ In phase known_phases -> phase_steps phase p = None.
Proof.
  intros Hn. unfold phase_steps.
  destruct (String.eqb_spec phase "init") as [->|]; [exfalso; apply Hn; left; reflexivity|].
  destruct (String.eqb_spec phase "prep") as [->|]; [exfalso; apply Hn; right; left; reflexivity|].
  destruct (String.eqb_spec phase "plan") as [->|]; [exfalso; apply Hn; do 2 right; left; reflexivity|].
  destruct (String.eqb_spec phase "clean") as [->|]; [exfalso; apply Hn; do 3 right; left; reflexivity|].
  reflexivity.
Qed.

Lemma runs_run_step phase ds ps st :
  step_ok phase ds st -> runs ds ps (step_events st) (fun _ => True) (run_step phase st).
Proof.
  intros Hst. unfold run_step, step_events, step_ok in *.
  rb; [apply runs_status| |reflexivity].
  rb0; [|apply runs_status].
  destruct (String.eqb phase "plan").
  - assert (Ep : run_plan_step st = ret tt)
      by (unfold run_plan_step; destruct Hst as [E|E]; rewrite E; reflexivity).
    rewrite Ep. eapply runs_weaken; [apply runs_ret|]. intros; exact I.
  - rb0; [apply runs_gets_drones|]. cbv beta in *; subst.
    rb0; [apply runs_start_step_runners, Hst|].
    rb0; [apply runs_wait_for_runners; assumption|].
    eapply runs_weaken; [apply runs_ret|]. intros; exact I.
Qed.

Lemma runs_run_steps phase ds ps sts :
  Forall (step_ok phase ds) sts ->
  runs ds ps (flat_map step_events sts) (fun _ => True) (run_steps phase sts).
Proof.
  induction sts as [|st sts IH]; intros Hf; cbn [run_steps flat_map].
  - eapply runs_weaken; [apply runs_ret|]. auto.
  - inversion Hf as [|? ? Hst Hrest]; subst.
    eapply runs_bind; [apply runs_run_step, Hst|]. intros _ _. apply IH, Hrest.
Qed.

Lemma runs_run_plugin_steps phase ds ps ps' :
  In phase known_phases -> Forall (step_ok phase ds) (all_steps phase ps') ->
  runs ds ps (flat_map step_events (all_steps phase ps')) (fun _ => True)
    (run_plugin_steps phase ps').
Proof.
  intros Hk. induction ps' as [|p ps' IH]; intros Hf; cbn [run_plugin_steps].
  - eapply runs_weaken; [apply runs_ret|]. auto.
  - rewrite (phase_steps_known phase p Hk).
    unfold all_steps in *. cbn [flat_map] in *. rewrite flat_map_app.
    apply Forall_app in Hf as [Hf1 Hf2].
    eapply runs_bind; [apply runs_run_steps, Hf1|]. intros _ _. apply IH, Hf2.
Qed.

Lemma runs_start_post_runners phase ds ps ds' :
  Forall (fun hd => post_ok phase (snd hd)) ds' ->
  runs ds ps [] (Forall (fun lg => glet_ok (snd lg))) (start_post_runners phase ds').
Proof.
  induction ds' as [|[h d] ds' IH]; intros Hf; cbn [start_post_runners].
  - eapply runs_weaken; [apply runs_ret|]. intros a ->. constructor.
  - inversion Hf as [|? ? Hh Hrest]; subst. unfold post_ok in Hh. cbn [snd] in Hh.
    destruct (String.eqb phase "init"); [|destruct (String.eqb phase "plan")].
    1,2: rb0; [apply runs_start, Hh|]; rb0; [apply IH, Hrest|];
         eapply runs_weaken; [apply runs_ret|]; intros ? ->; constructor; assumption.
    eapply runs_weaken; [apply runs_ret|]. intros ? ->. constructor.
Qed.

Lemma run_steps_app (phase : string) (a b : list Step) (s : ctrl) :
  run_steps phase (a ++ b) s = bind (run_steps phase a) (fun _ => run_steps phase b) s.
Proof.
  revert s. induction a as [|st a IH]; intros s; cbn [run_steps app].
  - reflexivity.
  - unfold bind. destruct (run_step phase st s); [|reflexivity|reflexivity].
    rewrite IH. reflexivity.
Qed.

Lemma run_plugin_steps_flat (phase : string) (ps : list PluginData) (s : ctrl) :
  In phase known_phases ->
  run_plugin_steps phase ps s = run_steps phase (all_steps phase ps) s.
Proof.
  intros Hk. revert s. induction ps as [|p ps IH]; intros s; [reflexivity|].
  cbn [run_plugin_steps]. rewrite (phase_steps_known phase p Hk).
  unfold all_steps. cbn [flat_map]. rewrite run_steps_app.
  unfold bind. destruct (run_steps phase _ s); [apply IH|reflexivity|reflexivity].
Qed.

Lemma assoc_in {V} (h : string) (l : list (string * V)) :
  In h (map fst l) -> exists v, assoc h l = Some v.
Proof.
  induction l as [|[k v] l IH]; intros Hin; [destruct Hin|].
  cbn [assoc]. destruct (String.eqb_spec h k) as [->|Hne]; [eauto|].
  destruct Hin as [Heq|Hin]; [cbn in Heq; congruence|]. apply IH, Hin.
Qed.

(** Extra: for a known phase whose steps and post-run greenlets return
    normally, where in the plan phase every step returns no record (None
    or []), [_run_phase] sends the callback the phase start, then a step
    start and a step end for each step in the plugins' order, then the
    phase end, and nothing else.  (A plan step that returns a record makes
    the phase raise instead.) *)
Theorem run_phase_event_sequence (phase : string) (s : ctrl) :
  status_cb s = true -> In phase known_phases ->
  Forall (step_ok phase (drones s)) (all_steps phase (plugins s)) ->
  Forall (fun hd => post_ok phase (snd hd)) (drones s) ->
  exists t, _run_phase phase s =
    Ok tt (with_trace (with_events s (events s ++ [("phase", phase, "start")] ++
              flat_map step_events (all_steps phase (plugins s)) ++
              [("phase", phase, "end")])) t).
Proof.
  intros Hcb Hk Hst Hpost.
  assert (R : runs (drones s) (plugins s)
                ([("phase", phase, "start")] ++ flat_map step_events (all_steps phase (plugins s)) ++
                 [("phase", phase, "end")]) (fun _ => True) (_run_phase phase)).
  { unfold _run_phase.
    eapply runs_bind; [apply runs_status|]. intros _ _.
    rb0; [apply runs_gets_plugins|]. cbv beta in *; subst.
    eapply runs_bind; [apply runs_run_plugin_steps; assumption|]. intros _ _.
    rb0; [apply runs_gets_drones|]. cbv beta in *; subst.
    rb0; [apply runs_start_post_runners, Hpost|].
    rb0; [apply runs_wait_for_runners; assumption|].
    apply runs_status. }
  destruct (R s Hcb eq_refl eq_refl) as ([] & t & E & _). exists t. exact E.
Qed.

Lemma run_phase_event_sequence_witness :
  exists t, _run_phase "prep" st_prep =
    Ok tt (with_trace (with_events st_prep (events st_prep ++ [("phase", "prep", "start")] ++
              flat_map step_events (all_steps "prep" (plugins st_prep)) ++
              [("phase", "prep", "end")])) t).
Proof.
  apply run_phase_event_sequence.
  - reflexivity.
  - right; left; reflexivity.
  - cbv -[yields_only]. repeat constructor.
  - repeat constructor.
Defined.

(** *** The plan branch and unknown phases *)

Lemma add_records_cons_eq (h m mk : string) (pr : option (gset string))
    (rs : list plan_record) (s : ctrl) :
  add_records ((h, m, mk, pr) :: rs) s =
    match assoc h (drones s) with
    | None => Err (KeyError h) s
    | Some _ =>
        Err (KeyError "dependency")
          (with_plan (with_added s (added s ++ [(h, m)]))
             (mkPlan (od_setdefault_append mk (h, m) (manifests (plan s))) (dependecy (plan s))
                (waiting (plan s) ∪ {[mk]}) (in_progress (plan s)) (finished (plan s))))
    end.
Proof.
  cbn [add_records]. unfold add_record, bind, lookup_drone.
  destruct (assoc h (drones s)); [|reflexivity].
  destruct s as [cb ev pl ds [ma dm w ip f] tr ad]. reflexivity.
Qed.

(** Extra: the loop over a step's plan records never gets past its first
    record.  For a host with no drone it raises KeyError(host) and changes
    nothing; otherwise it gives the drone the manifest, adds the marker to
    [waiting] and the (host, manifest) pair to the marker's manifests, and
    raises KeyError('dependency'): the remaining records are never read. *)
Theorem add_records_stop_at_first (h m mk : string) (pr : option (gset string))
    (rs : list plan_record) (s : ctrl) :
  add_records ((h, m, mk, pr) :: rs) s =
    match assoc h (drones s) with
    | None => Err (KeyError h) s
    | Some _ =>
        Err (KeyError "dependency")
          (with_plan (with_added s (added s ++ [(h, m)]))
             (mkPlan (od_setdefault_append mk (h, m) (manifests (plan s))) (dependecy (plan s))
                (waiting (plan s) ∪ {[mk]}) (in_progress (plan s)) (finished (plan s))))
    end.
Proof. apply add_records_cons_eq. Qed.

(** Extra: in the plan phase, after steps that return no record, the first
    step that returns a record for a known host ends the phase with
    KeyError('dependency'): the callback has received the phase start, the
    earlier steps' start and end and this step's start, the manifest is
    given to the drone and its marker is waiting, and the prerequisites
    map is left as it was. *)
Theorem plan_phase_first_record_raises (s : ctrl) (sts1 : list Step) (st : Step)
    (sts2 : list Step) (h m mk : string) (pr : option (gset string)) (rs : list plan_record) :
  status_cb s = true ->
  all_steps "plan" (plugins s) = sts1 ++ st :: sts2 ->
  Forall (step_ok "plan" (drones s)) sts1 ->
  plan_ret st = PReturns (Some ((h, m, mk, pr) :: rs)) ->
  In h (map fst (drones s)) ->
  exists s', _run_phase "plan" s = Err (KeyError "dependency") s' /\
    events s' = events s ++ [("phase", "plan", "start")] ++ flat_map step_events sts1 ++
                [("step", func_name st, "start")] /\
    added s' = added s ++ [(h, m)] /\
    plan s' = mkPlan (od_setdefault_append mk (h, m) (manifests (plan s))) (dependecy (plan s))
                (waiting (plan s) ∪ {[mk]}) (in_progress (plan s)) (finished (plan s)) /\
    drones s' = drones s.
Proof.
  intros Hcb Hall H1 Hret Hin.
  destruct (assoc_in h (drones s) Hin) as [d Hd].
  set (s0 := with_events s (events s ++ [("phase", "plan", "start")])).
  assert (E0 : status "phase" "plan" "start" s = Ok tt s0)
    by (unfold status; rewrite Hcb; reflexivity).
  destruct (runs_run_steps "plan" (drones s) (plugins s) sts1 H1 s0 Hcb eq_refl eq_refl)
    as ([] & t & E1 & _).
  set (s1 := with_trace (with_events s0 (events s0 ++ flat_map step_events sts1)) t) in E1.
  set (s2 := with_events s1 (events s1 ++ [("step", func_name st, "start")])).
  assert (E2 : status "step" (func_name st) "start" s1 = Ok tt s2)
    by (unfold status; cbn; rewrite Hcb; reflexivity).
  assert (Ed : assoc h (drones s2) = Some d) by exact Hd.
  pose proof (add_records_cons_eq h m mk pr rs s2) as E3. rewrite Ed in E3.
  eexists. split.
  - unfold _run_phase. rewrite (bind_Ok _ _ _ _ _ E0).
    rewrite (bind_Ok (gets plugins) _ s0 (plugins s) s0 eq_refl).
    erewrite bind_Err; [reflexivity|].
    rewrite run_plugin_steps_flat by (do 2 right; left; reflexivity).
    rewrite Hall, run_steps_app, (bind_Ok _ _ _ _ _ E1). cbn [run_steps].
    apply bind_Err. unfold run_step. rewrite (bind_Ok _ _ _ _ _ E2).
    apply bind_Err. cbn [String.eqb Ascii.eqb Bool.eqb]. unfold run_plan_step.
    rewrite Hret. exact E3.
  - repeat split; cbn; try reflexivity.
    rewrite <- !app_assoc. reflexivity.
Qed.

Lemma plan_phase_first_record_raises_witness :
  exists s', _run_phase "plan" st_plan = Err (KeyError "dependency") s' /\
    events s' = events st_plan ++ [("phase", "plan", "start")] ++ flat_map step_events [] ++
                [("step", func_name plan_step_a, "start")] /\
    added s' = added st_plan ++ [("host1", "m1")] /\
    plan s' = mkPlan (od_setdefault_append "markerA" ("host1", "m1") (manifests (plan st_plan)))
                (dependecy (plan st_plan)) (waiting (plan st_plan) ∪ {["markerA"]})
                (in_progress (plan st_plan)) (finished (plan st_plan)) /\
    drones s' = drones st_plan.
Proof.
  apply (plan_phase_first_record_raises st_plan [] plan_step_a [] "host1" "m1" "markerA" None []).
  - reflexivity.
  - reflexivity.
  - constructor.
  - reflexivity.
  - left; reflexivity.
Defined.

(** Extra: [getattr(plugin, phase + '_steps')] fails for a phase other than
    init, prep, plan and clean: with at least one plugin, the phase sends
    its start event and then raises AttributeError before any step or
    greenlet runs. *)
Theorem run_phase_unknown_phase (phase : string) (s : ctrl) (p : PluginData)
    (ps : list PluginData) :
  status_cb s = true -> plugins s = p :: ps -> ~ In phase known_phases ->
  _run_phase phase s =
    Err (AttributeError (String.append phase "_steps"))
      (with_events s (events s ++ [("phase", phase, "start")])).
Proof.
  intros Hcb Hp Hn.
  assert (E0 : status "phase" phase "start" s =
                 Ok tt (with_events s (events s ++ [("phase", phase, "start")])))
    by (unfold status; rewrite Hcb; reflexivity).
  unfold _run_phase. rewrite (bind_Ok _ _ _ _ _ E0).
  rewrite (bind_Ok (gets plugins) _ _ (p :: ps) _) by (unfold gets; cbn; rewrite Hp; reflexivity).
  apply bind_Err. cbn [run_plugin_steps]. rewrite phase_steps_unknown by exact Hn.
  reflexivity.
Qed.

Lemma run_phase_unknown_phase_witness :
  _run_phase "deploy" st_prep =
    Err (AttributeError (String.append "deploy" "_steps"))
      (with_events st_prep (events st_prep ++ [("phase", "deploy", "start")])).
Proof.
  apply (run_phase_unknown_phase "deploy" st_prep prep_plugin []).
  - reflexivity.
  - reflexivity.
  - cbv. intros H. repeat destruct H as [H|H]; try discriminate H. exact H.
Defined.
